(** * CoreLogger: the text-scoring engine of [src/services/nlp_analyzer.py]

    A shallow embedding of the classes [NLPAnalyzer] and
    [EnhancedThoughtScorer] and the properties the specification states
    about them.

    Conventions of the embedding.
    - A Python [str] is a list of characters ([char]): the code points
      U+0000..U+00FF, U+0130 and U+0307.  [str.lower] maps this set to
      itself; U+0130 is the one code point whose lower case is two code
      points long (i followed by U+0307).
    - A Python [float] is a real number; an [int] that counts something is
      a [nat].  The operations that can raise ([/] on a zero divisor,
      [math.log2] outside its domain) return in the [result] monad.
    - A Python [set] is a hash table: the order in which it is traversed
      depends on the interpreter's hash seed, which is an explicit
      argument ([HashSeed]) of every function that builds a set.
    - A [dict] and a [Counter] keep insertion order and are association
      lists. *)

From Stdlib Require Import Ascii String List Arith Bool Lia Permutation.
From Stdlib Require Import Reals Lra.
Import ListNotations.

(** ** Exceptions *)

Inductive exn : Type :=
| ZeroDivisionError
| ValueError.

Inductive result (A : Type) : Type :=
| Ok (a : A)
| Raise (e : exn).

Arguments Ok {A} a.
Arguments Raise {A} e.

Definition bind {A B : Type} (m : result A) (k : A -> result B) : result B :=
  match m with
  | Ok a => k a
  | Raise e => Raise e
  end.

Notation "x <- m ;; k" := (bind m (fun x => k))
  (at level 61, m at next level, right associativity).

(** A [for] loop that threads an accumulator and stops at the first
    exception. *)
Fixpoint for_each {A S : Type} (body : S -> A -> result S) (l : list A) (s : S)
  : result S :=
  match l with
  | [] => Ok s
  | x :: l' => s' <- body s x ;; for_each body l' s'
  end.

(** ** Numbers *)

Open Scope R_scope.

(** [a / b]: true division. *)
Definition truediv (a b : R) : result R :=
  if Req_dec_T b 0 then Raise ZeroDivisionError else Ok (a / b).

(** [math.log2]. *)
Definition log2 (x : R) : result R :=
  if Rlt_dec 0 x then Ok (ln x / ln 2) else Raise ValueError.

(** ** Strings *)

(** A code point: one of U+0000..U+00FF, or U+0130 (capital I with dot
    above), or U+0307 (combining dot above). *)
Inductive char : Type :=
| Latin1 (a : ascii)
| U0130
| U0307.

Definition char_eq_dec (a b : char) : {a = b} + {a <> b}.
Proof.
  decide equality. apply ascii_dec.
Defined.

Definition str : Type := list char.

Definition str_eq_dec : forall a b : str, {a = b} + {a <> b} :=
  list_eq_dec char_eq_dec.

(** A string literal. *)
Definition lit (s : string) : str := map Latin1 (list_ascii_of_string s).

Definition between (lo hi : nat) (c : ascii) : bool :=
  let n := nat_of_ascii c in (lo <=? n)%nat && (n <=? hi)%nat.

(** [str.isspace] on one character: TAB..CR, FS..US, SPACE, NEL, NBSP. *)
Definition isspace (c : char) : bool :=
  match c with
  | Latin1 a =>
      between 9 13 a || between 28 32 a
      || (nat_of_ascii a =? 133)%nat || (nat_of_ascii a =? 160)%nat
  | U0130 | U0307 => false
  end.

(** The character class [[a-zA-Z]]. *)
Definition is_ascii_alpha (c : char) : bool :=
  match c with
  | Latin1 a => between 65 90 a || between 97 122 a
  | U0130 | U0307 => false
  end.

(** The class [\w] of a [str] pattern: [str.isalnum] or the underscore.
    U+0130 is a letter; U+0307 is a combining mark and no word
    character. *)
Definition is_word (c : char) : bool :=
  match c with
  | Latin1 a =>
      between 48 57 a || (between 65 90 a || between 97 122 a)
      || (nat_of_ascii a =? 95)%nat
      || (nat_of_ascii a =? 170)%nat || between 178 179 a
      || (nat_of_ascii a =? 181)%nat || between 185 186 a || between 188 190 a
      || between 192 214 a || between 216 246 a || between 248 255 a
  | U0130 => true
  | U0307 => false
  end.

(** [str.lower] on one character: A..Z and the capitals U+00C0..U+00DE
    except the multiplication sign U+00D7 move up by 32; U+0130 becomes
    the two characters i and U+0307; every other character stays. *)
Definition lower_char (c : char) : str :=
  match c with
  | Latin1 a =>
      [Latin1 (if between 65 90 a || between 192 214 a || between 216 222 a
               then ascii_of_nat (nat_of_ascii a + 32)
               else a)]
  | U0130 => [Latin1 "i"; U0307]
  | U0307 => [U0307]
  end.

Definition lower (s : str) : str := flat_map lower_char s.

(** [str.split()]: the maximal runs of characters that are not white
    space.  [cur] is the token being read, in reverse. *)
Fixpoint split_ws_from (cur : str) (s : str) : list str :=
  match s with
  | [] => match cur with [] => [] | _ => [rev cur] end
  | c :: s' =>
      if isspace c
      then match cur with
           | [] => split_ws_from [] s'
           | _ => rev cur :: split_ws_from [] s'
           end
      else split_ws_from (c :: cur) s'
  end.

Definition split (s : str) : list str := split_ws_from [] s.

(** [str.split(sep)] for a separator of one character: the pieces between
    the separators, empty pieces included. *)
Fixpoint split_on_from (sep : char) (cur : str) (s : str) : list str :=
  match s with
  | [] => [rev cur]
  | c :: s' =>
      if char_eq_dec c sep
      then rev cur :: split_on_from sep [] s'
      else split_on_from sep (c :: cur) s'
  end.

Definition split_on (sep : char) (s : str) : list str :=
  split_on_from sep [] s.

(** [sep.join(parts)]. *)
Fixpoint join (sep : str) (parts : list str) : str :=
  match parts with
  | [] => []
  | [p] => p
  | p :: rest => p ++ sep ++ join sep rest
  end.

(** ** Sets, counters and dictionaries *)

Definition mem (x : str) (l : list str) : bool :=
  if in_dec str_eq_dec x l then true else false.

(** The interpreter's hash seed decides in which order a hash table built
    from given elements is traversed; nothing else about it is known. *)
Record HashSeed : Type := {
  iter_order : list str -> list str;
  iter_order_perm : forall l, Permutation (iter_order l) l
}.

(** The seed under which a table is traversed in insertion order. *)
Definition insertion_seed : HashSeed :=
  {| iter_order := fun l => l; iter_order_perm := @Permutation_refl str |}.

(** A [set] of strings, as the sequence in which it is traversed. *)
Definition pyset : Type := list str.

(** [set(l)]. *)
Definition set_of (h : HashSeed) (l : list str) : pyset :=
  iter_order h (nodup str_eq_dec l).

(** [a.intersection(b)]. *)
Definition intersection (h : HashSeed) (a b : pyset) : pyset :=
  iter_order h (filter (fun x => mem x b) a).

(** [Counter(l)]: every distinct element with its number of occurrences,
    in order of first occurrence. *)
Fixpoint counter_add {A : Type} (dec : forall a b : A, {a = b} + {a <> b})
  (x : A) (c : list (A * nat)) : list (A * nat) :=
  match c with
  | [] => [(x, 1%nat)]
  | (y, n) :: c' =>
      if dec x y then (y, S n) :: c' else (y, n) :: counter_add dec x c'
  end.

Definition Counter {A : Type} (dec : forall a b : A, {a = b} + {a <> b})
  (l : list A) : list (A * nat) :=
  fold_left (fun c x => counter_add dec x c) l [].

(** [c[x]]: the count of [x], zero when [x] is not counted. *)
Fixpoint counter_get {A : Type} (dec : forall a b : A, {a = b} + {a <> b})
  (x : A) (c : list (A * nat)) : nat :=
  match c with
  | [] => 0%nat
  | (y, n) :: c' => if dec x y then n else counter_get dec x c'
  end.

Definition values {K V : Type} (d : list (K * V)) : list V := map snd d.
Definition keys {K V : Type} (d : list (K * V)) : list K := map fst d.

(** A [dict] with string keys. *)
Definition dict (V : Type) : Type := list (str * V).

(** [d[k] = v]. *)
Fixpoint dict_set {V : Type} (k : str) (v : V) (d : dict V) : dict V :=
  match d with
  | [] => [(k, v)]
  | (k', v') :: d' =>
      if str_eq_dec k k' then (k', v) :: d' else (k', v') :: dict_set k v d'
  end.

(** [d.get(k)]. *)
Fixpoint dict_get {V : Type} (k : str) (d : dict V) : option V :=
  match d with
  | [] => None
  | (k', v) :: d' => if str_eq_dec k k' then Some v else dict_get k d'
  end.

(** ** The pattern of [extract_keywords]

    The pattern is the concatenation of the raw literal
    [r'\b[a-zA-Z]{'], the decimal [min_length] and the literal [',}\b'].
    The last literal is not raw, so its [\b] is the character U+0008
    (backspace): the pattern reads "a word boundary, at least [n]
    letters, the character U+0008". *)

Definition backspace : char := Latin1 "008".

Definition is_backspace (c : char) : bool :=
  if char_eq_dec c backspace then true else false.

Definition is_word_opt (c : option char) : bool :=
  match c with
  | Some c => is_word c
  | None => false
  end.

(** [\b] between the character before the position and the one at it. *)
Definition word_boundary (prev next : option char) : bool :=
  xorb (is_word_opt prev) (is_word_opt next).

(** [[a-zA-Z]{n,}] followed by U+0008, from a position where [taken]
    letters are already consumed: the quantifier is greedy, so a further
    letter is tried first, and the quantifier stops here only when that
    fails; then U+0008 must be the next character.  The result is the
    length of the match, U+0008 included. *)
Fixpoint match_run (n taken : nat) (s : str) : option nat :=
  let stop :=
    match s with
    | c :: _ =>
        if (n <=? taken)%nat && is_backspace c then Some (S taken) else None
    | [] => None
    end in
  match s with
  | c :: s' =>
      if is_ascii_alpha c
      then match match_run n (S taken) s' with
           | Some k => Some k
           | None => stop
           end
      else stop
  | [] => stop
  end.

(** The whole pattern at one position. *)
Definition match_at (n : nat) (prev : option char) (s : str) : option nat :=
  if word_boundary prev (hd_error s) then match_run n 0 s else None.

(** [re.findall] for this pattern, scanning from left to right: after a
    match the scan resumes where the match ended ([skip] counts the
    characters of the last match still to pass).  A match holds at least
    the character U+0008, so no match is empty. *)
Fixpoint findall_from (n : nat) (prev : option char) (s : str) (skip : nat)
  : list str :=
  match s with
  | [] => []
  | c :: s' =>
      match skip with
      | S k => findall_from n (Some c) s' k
      | O =>
          match match_at n prev s with
          | Some (S k) => firstn (S k) s :: findall_from n (Some c) s' k
          | _ => findall_from n (Some c) s' 0
          end
      end
  end.

Definition findall (n : nat) (s : str) : list str := findall_from n None s 0.

(** ** class NLPAnalyzer *)

Record NLPAnalyzer : Type := { stop_words : pyset }.

Definition stop_words_literal : list str :=
  [
    lit "a"; lit "an"; lit "and"; lit "are"; lit "as"; lit "at"; lit "be";
    lit "by"; lit "for"; lit "from"; lit "has"; lit "he"; lit "in";
    lit "is"; lit "it"; lit "its"; lit "of"; lit "on"; lit "that";
    lit "the"; lit "to"; lit "was"; lit "will"; lit "with"; lit "i";
    lit "you"; lit "we"; lit "they"; lit "this"; lit "but"; lit "or";
    lit "not"; lit "have"; lit "had"; lit "what"; lit "when"; lit "where";
    lit "who"; lit "which"; lit "why"; lit "how"; lit "all"; lit "any";
    lit "both"; lit "each"; lit "few"; lit "more"; lit "most"; lit "other";
    lit "some"; lit "such"; lit "no"; lit "nor"; lit "only"; lit "own";
    lit "same"; lit "so"; lit "than"; lit "too"; lit "very"; lit "can";
    lit "could"; lit "should"; lit "would"
  ].

(** [NLPAnalyzer.__init__]. *)
Definition NLPAnalyzer_init (h : HashSeed) : NLPAnalyzer :=
  {| stop_words := set_of h stop_words_literal |}.

Definition extract_keywords (h : HashSeed) (self : NLPAnalyzer) (text : str)
  (min_length : nat) : list str :=
  let words := findall min_length (lower text) in
  let keywords := filter (fun word => negb (mem word (stop_words self))) words in
  set_of h keywords.

Definition calculate_keyword_density (h : HashSeed) (self : NLPAnalyzer)
  (text : str) : result (dict R) :=
  let keywords := extract_keywords h self text 3 in
  let total_words := length (split text) in
  if (total_words =? 0)%nat then Ok []
  else
    let keyword_counts := Counter str_eq_dec keywords in
    for_each
      (fun densities item =>
         let '(keyword, count) := item in
         d <- truediv (INR count) (INR total_words) ;;
         Ok (dict_set keyword d densities))
      keyword_counts [].

Definition calculate_repetition_score (self : NLPAnalyzer) (text : str)
  : result R :=
  let words := split (lower text) in
  if (length words <=? 1)%nat then Ok 0
  else
    let word_counts := Counter str_eq_dec words in
    let unique_words := length word_counts in
    let total_words := length words in
    q <- truediv (INR unique_words) (INR total_words) ;;
    let repetition := 1 - q in
    Ok (Rmin repetition 1).

Definition calculate_entropy (self : NLPAnalyzer) (text : str) : result R :=
  match text with
  | [] => Ok 0
  | _ =>
      let char_counts := Counter char_eq_dec (lower text) in
      let total_chars := length text in
      for_each
        (fun entropy count =>
           probability <- truediv (INR count) (INR total_chars) ;;
           if Rgt_dec probability 0
           then l <- log2 probability ;; Ok (entropy - probability * l)
           else Ok entropy)
        (values char_counts) 0
  end.

Definition extract_ngrams (self : NLPAnalyzer) (text : str) (n : nat)
  : list str :=
  let words := split (lower text) in
  if (length words <? n)%nat then []
  else
    map (fun i => join (lit " ") (firstn n (skipn i words)))
        (seq 0 (length words - n + 1)).

Definition calculate_novelty_score (h : HashSeed) (self : NLPAnalyzer)
  (current_text : str) (existing_texts : list str) (ngram_size : nat)
  : result R :=
  match existing_texts with
  | [] => Ok 1
  | _ =>
      let current_ngrams :=
        set_of h (extract_ngrams self current_text ngram_size) in
      match current_ngrams with
      | [] => Ok 0.5
      | _ =>
          total_overlap <-
            for_each
              (fun total_overlap existing_text =>
                 let existing_ngrams :=
                   set_of h (extract_ngrams self existing_text ngram_size) in
                 match existing_ngrams with
                 | [] => Ok total_overlap
                 | _ =>
                     let overlap :=
                       length (intersection h current_ngrams existing_ngrams) in
                     let max_possible :=
                       Nat.max (length current_ngrams) (length existing_ngrams) in
                     if (0 <? max_possible)%nat
                     then r <- truediv (INR overlap) (INR max_possible) ;;
                          Ok (total_overlap + r)
                     else Ok total_overlap
                 end)
              existing_texts 0 ;;
          avg_overlap <-
            match existing_texts with
            | [] => Ok 0
            | _ => truediv total_overlap (INR (length existing_texts))
            end ;;
          let novelty := 1 - Rmin avg_overlap 1 in
          Ok (Rmax 0 novelty)
      end
  end.

Definition positive_words_literal : list str :=
  [
    lit "good"; lit "great"; lit "excellent"; lit "amazing";
    lit "wonderful"; lit "fantastic"; lit "love"; lit "like"; lit "enjoy";
    lit "happy"; lit "excited"; lit "pleased"; lit "satisfied";
    lit "awesome"; lit "brilliant"; lit "perfect"; lit "success";
    lit "achievement"; lit "win"
  ].

Definition negative_words_literal : list str :=
  [
    lit "bad"; lit "terrible"; lit "awful"; lit "horrible"; lit "hate";
    lit "dislike"; lit "sad"; lit "angry"; lit "frustrated";
    lit "disappointed"; lit "failed"; lit "failure"; lit "wrong";
    lit "error"; lit "problem"; lit "issue"; lit "difficult"; lit "hard";
    lit "struggle"
  ].

Definition analyze_sentiment_basic (h : HashSeed) (self : NLPAnalyzer)
  (text : str) : result (str * R) :=
  let positive_words := set_of h positive_words_literal in
  let negative_words := set_of h negative_words_literal in
  let words := set_of h (split (lower text)) in
  let positive_count := length (intersection h words positive_words) in
  let negative_count := length (intersection h words negative_words) in
  let total_sentiment_words := (positive_count + negative_count)%nat in
  if (total_sentiment_words =? 0)%nat then Ok (lit "neutral", 0.5)
  else
    sentiment_score <-
      truediv (INR positive_count) (INR total_sentiment_words) ;;
    if Rgt_dec sentiment_score 0.6 then Ok (lit "positive", sentiment_score)
    else if Rlt_dec sentiment_score 0.4
         then Ok (lit "negative", 1 - sentiment_score)
         else Ok (lit "neutral", 0.5).

(** [sum(len(word) for word in words)]. *)
Definition sum_len (words : list str) : nat :=
  fold_left (fun acc word => (acc + length word)%nat) words 0%nat.

Definition calculate_complexity_score (h : HashSeed) (self : NLPAnalyzer)
  (text : str) : result R :=
  match text with
  | [] => Ok 0
  | _ =>
      let words := split text in
      let sentences := split_on (Latin1 ".") text in
      avg_word_length <-
        match words with
        | [] => Ok 0
        | _ => truediv (INR (sum_len words)) (INR (length words))
        end ;;
      avg_sentence_length <-
        match sentences with
        | [] => Ok 0
        | _ => truediv (INR (length words)) (INR (length sentences))
        end ;;
      vocab_richness <-
        match words with
        | [] => Ok 0
        | _ => truediv (INR (length (set_of h words))) (INR (length words))
        end ;;
      w <- truediv avg_word_length 10 ;;
      let word_complexity := Rmin w 1 in
      s <- truediv avg_sentence_length 20 ;;
      let sentence_complexity := Rmin s 1 in
      let complexity :=
        word_complexity * 0.3 + sentence_complexity * 0.4
        + vocab_richness * 0.3 in
      Ok (Rmin complexity 1)
  end.

(** ** class EnhancedThoughtScorer *)

Record EnhancedThoughtScorer : Type := { nlp : NLPAnalyzer }.

(** [EnhancedThoughtScorer.__init__]. *)
Definition EnhancedThoughtScorer_init (h : HashSeed) : EnhancedThoughtScorer :=
  {| nlp := NLPAnalyzer_init h |}.

Definition calculate_enhanced_importance (h : HashSeed)
  (self : EnhancedThoughtScorer) (content : str)
  (length_weight complexity_weight novelty_weight sentiment_weight
   entropy_weight : R)
  (existing_content : option (list str)) : result (R * dict R) :=
  match content with
  | [] => Ok (0, [])
  | _ =>
      l <- truediv (INR (length content)) 500 ;;
      let length_factor := Rmin l 1 in
      complexity_factor <- calculate_complexity_score h (nlp self) content ;;
      novelty_factor <-
        match existing_content with
        | Some (t :: ts) =>
            calculate_novelty_score h (nlp self) content (t :: ts) 3
        | _ => Ok 1
        end ;;
      sa <- analyze_sentiment_basic h (nlp self) content ;;
      let '(sentiment, sentiment_strength) := sa in
      let sentiment_factor :=
        if str_eq_dec sentiment (lit "neutral") then 0.3
        else sentiment_strength in
      entropy <- calculate_entropy (nlp self) content ;;
      e <- truediv entropy 5 ;;
      let entropy_factor := Rmin e 1 in
      let importance :=
        length_factor * length_weight
        + complexity_factor * complexity_weight
        + novelty_factor * novelty_weight
        + sentiment_factor * sentiment_weight
        + entropy_factor * entropy_weight in
      let importance := Rmax 0 (Rmin importance 1) in
      let metrics :=
        [ (lit "length_factor", length_factor);
          (lit "complexity_factor", complexity_factor);
          (lit "novelty_factor", novelty_factor);
          (lit "sentiment_factor", sentiment_factor);
          (lit "entropy_factor", entropy_factor);
          (lit "final_importance", importance) ] in
      Ok (importance, metrics)
  end.

(** The default weights of [calculate_enhanced_importance]. *)
Definition default_length_weight : R := 0.2.
Definition default_complexity_weight : R := 0.25.
Definition default_novelty_weight : R := 0.3.
Definition default_sentiment_weight : R := 0.15.
Definition default_entropy_weight : R := 0.1.

(** ** The functions without the hash seed

    What each function computes, written with duplicate-free lists and
    counts in place of hash tables. *)

(** The number of distinct elements of [l]. *)
Definition unique_count (l : list str) : nat :=
  length (nodup str_eq_dec l).

(** The number of distinct elements of [l] that belong to [s]. *)
Definition common_count (l s : list str) : nat :=
  length (filter (fun x => mem x s) (nodup str_eq_dec l)).

Definition clamp (x lo hi : R) : R := Rmax lo (Rmin x hi).

Definition Rsum (l : list R) : R := fold_right Rplus 0 l.

(** The base-2 logarithm of a positive real. *)
Definition log2r (x : R) : R := ln x / ln 2.

(** Shannon entropy, in bits, of the characters of the lower-cased text:
    minus the sum, over the distinct characters, of [p * log2 p] with [p]
    the character's relative frequency. *)
Definition entropy_spec (text : str) : R :=
  let s := lower text in
  - Rsum (map (fun c =>
                 let p := INR (count_occ char_eq_dec s c) / INR (length s) in
                 p * log2r p)
              (nodup char_eq_dec s)).

(** What [calculate_entropy] adds up: the counts are those of the
    lower-cased text, the divisor is the length of the text itself. *)
Definition entropy_value (text : str) : R :=
  let s := lower text in
  - Rsum (map (fun c =>
                 let q := INR (count_occ char_eq_dec s c) / INR (length text) in
                 q * log2r q)
              (nodup char_eq_dec s)).

(** Complexity: word length, sentence length and vocabulary richness,
    weighted 0.3, 0.4 and 0.3, the sum capped at 1.  For a text without
    words both word ratios are [0 / 0], which is 0 here as it is in the
    code. *)
Definition complexity_spec (text : str) : R :=
  let words := split text in
  let total_words := INR (length words) in
  let average_word_length := INR (length (concat words)) / total_words in
  let words_per_segment :=
    total_words / INR (length (split_on (Latin1 ".") text)) in
  Rmin (0.3 * Rmin (average_word_length / 10) 1
        + 0.4 * Rmin (words_per_segment / 20) 1
        + 0.3 * (INR (unique_count words) / total_words)) 1.

(** Sentiment from the numbers of distinct tokens that are positive and
    negative words. *)
Definition sentiment_spec (text : str) : str * R :=
  let tokens := split (lower text) in
  let positive_count := common_count tokens positive_words_literal in
  let negative_count := common_count tokens negative_words_literal in
  if (positive_count + negative_count =? 0)%nat then (lit "neutral", 0.5)
  else
    let s := INR positive_count / INR (positive_count + negative_count) in
    if Rgt_dec s 0.6 then (lit "positive", s)
    else if Rlt_dec s 0.4 then (lit "negative", 1 - s)
    else (lit "neutral", 0.5).

(** The share of n-grams two n-gram lists have in common. *)
Definition overlap_ratio (current reference : list str) : R :=
  INR (common_count current reference)
  / INR (Nat.max (unique_count current) (unique_count reference)).

(** Novelty: one minus the average overlap ratio, the sum taken over the
    references that have an n-gram and divided by the number of all
    references. *)
Definition novelty_spec (self : NLPAnalyzer) (current_text : str)
  (reference_texts : list str) (n : nat) : R :=
  let ngrams text := extract_ngrams self text n in
  match reference_texts with
  | [] => 1
  | _ =>
      if (unique_count (ngrams current_text) =? 0)%nat then 0.5
      else
        let contributing :=
          filter (fun r => negb (unique_count (ngrams r) =? 0)%nat)
                 reference_texts in
        let avg :=
          Rsum (map (fun r => overlap_ratio (ngrams current_text) (ngrams r))
                    contributing)
          / INR (length reference_texts) in
        Rmax 0 (1 - Rmin avg 1)
  end.

(** The weighted sum of the five factors, clamped to [0, 1]. *)
Definition weighted_importance
  (length_factor complexity_factor novelty_factor sentiment_factor
   entropy_factor : R)
  (length_weight complexity_weight novelty_weight sentiment_weight
   entropy_weight : R) : R :=
  clamp (length_factor * length_weight
         + complexity_factor * complexity_weight
         + novelty_factor * novelty_weight
         + sentiment_factor * sentiment_weight
         + entropy_factor * entropy_weight) 0 1.

(** A reference list that may be absent. *)
Definition reference_list (existing_content : option (list str)) : list str :=
  match existing_content with
  | Some l => l
  | None => []
  end.

Definition factor_names : list str :=
  [ lit "length_factor"; lit "complexity_factor"; lit "novelty_factor";
    lit "sentiment_factor"; lit "entropy_factor"; lit "final_importance" ].

(** The score and the factors of a non-empty content. *)
Definition importance_breakdown (self : NLPAnalyzer) (content : str)
  (length_weight complexity_weight novelty_weight sentiment_weight
   entropy_weight : R)
  (existing_content : option (list str)) : R * dict R :=
  let length_factor := Rmin (INR (length content) / 500) 1 in
  let complexity_factor := complexity_spec content in
  let novelty_factor :=
    match reference_list existing_content with
    | [] => 1
    | r :: rs => novelty_spec self content (r :: rs) 3
    end in
  let sentiment_factor :=
    if str_eq_dec (fst (sentiment_spec content)) (lit "neutral") then 0.3
    else snd (sentiment_spec content) in
  let entropy_factor := Rmin (entropy_value content / 5) 1 in
  let importance :=
    weighted_importance length_factor complexity_factor novelty_factor
      sentiment_factor entropy_factor
      length_weight complexity_weight novelty_weight sentiment_weight
      entropy_weight in
  (importance,
   combine factor_names
     [ length_factor; complexity_factor; novelty_factor; sentiment_factor;
       entropy_factor; importance ]).

(** The character before a position: the last one of [pre], or [prev]
    when [pre] is empty. *)
Definition char_before (prev : option char) (pre : str) : option char :=
  last (map Some pre) prev.

Definition is_alpha_opt (c : option char) : bool :=
  match c with
  | Some c => is_ascii_alpha c
  | None => false
  end.

(** [w] is a maximal run of at least [n] letters in [s]: no letter stands
    before it or after it. *)
Definition maximal_alpha_run (n : nat) (s w : str) : Prop :=
  exists pre post,
    s = pre ++ w ++ post
    /\ (n <= length w)%nat
    /\ forallb is_ascii_alpha w = true
    /\ is_alpha_opt (char_before None pre) = false
    /\ is_alpha_opt (hd_error post) = false.

(** [w] is a match of the pattern in [s]: a run of at least [n] letters
    that no word character (letter, digit, underscore) precedes, together
    with the character U+0008 that follows it.  [prev] is the character
    before [s]. *)
Definition keyword_match (n : nat) (prev : option char) (s w : str) : Prop :=
  exists pre run post,
    s = pre ++ run ++ backspace :: post
    /\ w = run ++ [backspace]
    /\ (n <= length run)%nat
    /\ forallb is_ascii_alpha run = true
    /\ is_word_opt (char_before prev pre) = false.

(** The number of letters [s] starts with. *)
Fixpoint alpha_prefix_length (s : str) : nat :=
  match s with
  | c :: s' => if is_ascii_alpha c then S (alpha_prefix_length s') else 0%nat
  | [] => 0%nat
  end.

(** ** [EnhancedThoughtScorer.get_enhanced_analysis] *)

(** The dictionary the analysis returns, one field per key. *)
Module Analysis.

Record t : Type := {
  keywords : list str;
  keyword_density : dict R;
  repetition_score : R;
  entropy : R;
  sentiment : str;
  sentiment_score : R;
  complexity_score : R;
  novelty_score : R;
  importance_score : R;
  importance_metrics : dict R;
  word_count : nat;
  char_count : nat
}.

End Analysis.

Definition get_enhanced_analysis (h : HashSeed) (self : EnhancedThoughtScorer)
  (content : str) (existing_content : option (list str))
  : result Analysis.t :=
  let keywords := extract_keywords h (nlp self) content 3 in
  keyword_density <- calculate_keyword_density h (nlp self) content ;;
  repetition_score <- calculate_repetition_score (nlp self) content ;;
  entropy <- calculate_entropy (nlp self) content ;;
  sa <- analyze_sentiment_basic h (nlp self) content ;;
  let '(sentiment, sentiment_score) := sa in
  complexity <- calculate_complexity_score h (nlp self) content ;;
  novelty <-
    calculate_novelty_score h (nlp self) content
      match existing_content with
      | Some (t :: ts) => t :: ts
      | _ => []
      end 3 ;;
  im <-
    calculate_enhanced_importance h self content
      default_length_weight default_complexity_weight default_novelty_weight
      default_sentiment_weight default_entropy_weight existing_content ;;
  let '(importance, metrics) := im in
  Ok {| Analysis.keywords := firstn 10 keywords;
        Analysis.keyword_density := firstn 5 keyword_density;
        Analysis.repetition_score := repetition_score;
        Analysis.entropy := entropy;
        Analysis.sentiment := sentiment;
        Analysis.sentiment_score := sentiment_score;
        Analysis.complexity_score := complexity;
        Analysis.novelty_score := novelty;
        Analysis.importance_score := importance;
        Analysis.importance_metrics := metrics;
        Analysis.word_count := length (split content);
        Analysis.char_count := length content |}.

(** * Properties *)

(** ** Arithmetic *)

Lemma truediv_ok (a b : R) : b <> 0 -> truediv a b = Ok (a / b).
Proof.
  intros Hb. unfold truediv. destruct (Req_dec_T b 0); [contradiction | reflexivity].
Qed.

Lemma truediv_INR (a : R) (n : nat) :
  (0 < n)%nat -> truediv a (INR n) = Ok (a / INR n).
Proof.
  intros Hn. apply truediv_ok. apply not_0_INR. lia.
Qed.

Lemma log2_ok (x : R) : 0 < x -> log2 x = Ok (log2r x).
Proof.
  intros Hx. unfold log2. destruct (Rlt_dec 0 x); [reflexivity | contradiction].
Qed.

Lemma ln2_pos : 0 < ln 2.
Proof.
  rewrite <- ln_1. apply ln_increasing; lra.
Qed.

Lemma log2r_nonpos (x : R) : 0 < x -> x <= 1 -> log2r x <= 0.
Proof.
  intros H0 H1. unfold log2r.
  assert (Hl : ln x <= 0).
  { destruct H1 as [H1 | ->]; [| rewrite ln_1; lra].
    left. rewrite <- ln_1. now apply ln_increasing. }
  pose proof ln2_pos as H2.
  unfold Rdiv. replace 0 with (0 * / ln 2) by ring.
  apply Rmult_le_compat_r; [| exact Hl].
  left. now apply Rinv_0_lt_compat.
Qed.

Lemma log2r_1 : log2r 1 = 0.
Proof. unfold log2r. rewrite ln_1. unfold Rdiv. ring. Qed.

Lemma log2r_half : log2r (1 / 2) = -1.
Proof.
  unfold log2r. replace (1 / 2) with (/ 2) by lra.
  rewrite ln_Rinv by lra. pose proof ln2_pos. field. lra.
Qed.

Lemma ratio_bounds (a b : nat) :
  (a <= b)%nat -> 0 <= INR a / INR b <= 1.
Proof.
  intros Hab. destruct b as [| b].
  - assert (a = 0%nat) by lia. subst. simpl. unfold Rdiv. rewrite Rmult_0_l. lra.
  - assert (Hb : 0 < INR (S b)) by (apply lt_0_INR; lia).
    pose proof (pos_INR a) as Ha. apply le_INR in Hab.
    split.
    + apply Rmult_le_pos; [exact Ha | left; now apply Rinv_0_lt_compat].
    + apply (Rmult_le_reg_r (INR (S b))); [exact Hb |].
      unfold Rdiv. rewrite Rmult_assoc, Rinv_l by lra. lra.
Qed.

Lemma Rsum_app (l1 l2 : list R) : Rsum (l1 ++ l2) = Rsum l1 + Rsum l2.
Proof.
  induction l1 as [| x l1 IH]; simpl; [lra | rewrite IH; lra].
Qed.

Lemma Rsum_perm (l1 l2 : list R) : Permutation l1 l2 -> Rsum l1 = Rsum l2.
Proof.
  induction 1; simpl; lra.
Qed.

Lemma Rsum_nonneg (l : list R) : Forall (fun x => 0 <= x) l -> 0 <= Rsum l.
Proof.
  induction 1; simpl; lra.
Qed.

Lemma Rsum_le_length (l : list R) :
  Forall (fun x => x <= 1) l -> Rsum l <= INR (length l).
Proof.
  induction 1 as [| x l Hx _ IH]; [simpl; lra |].
  cbn [Rsum fold_right length]. fold (Rsum l). rewrite S_INR. lra.
Qed.

(** ** The string operations on small inputs *)

Example split_example :
  split (lit "  I love  this, ok ")
  = [lit "I"; lit "love"; lit "this,"; lit "ok"].
Proof. reflexivity. Qed.

Example split_on_example :
  split_on (Latin1 ".") (lit "a.b..") = [lit "a"; lit "b"; lit ""; lit ""].
Proof. reflexivity. Qed.

Example lower_example : lower (lit "AbC d") = lit "abc d".
Proof. reflexivity. Qed.

Example lower_U0130_example :
  lower [U0130; Latin1 "A"] = [Latin1 "i"; U0307; Latin1 "a"].
Proof. reflexivity. Qed.

Example findall_example :
  findall 3 (lit "abc123 foo_bar hello-world the cat") = [].
Proof. reflexivity. Qed.

Example findall_backspace_example :
  findall 3 (lit "the" ++ backspace :: lit " ab" ++ backspace :: lit " 1cat"
             ++ backspace :: lit " dogs" ++ [backspace])
  = [lit "the" ++ [backspace]; lit "dogs" ++ [backspace]].
Proof. reflexivity. Qed.

Example Counter_example :
  Counter char_eq_dec (lit "abca")
  = [(Latin1 "a", 2%nat); (Latin1 "b", 1%nat); (Latin1 "c", 1%nat)].
Proof. reflexivity. Qed.

Example extract_ngrams_example :
  extract_ngrams (NLPAnalyzer_init insertion_seed) (lit "A b  c d") 3
  = [lit "a b c"; lit "b c d"].
Proof. reflexivity. Qed.

Example extract_keywords_example :
  extract_keywords insertion_seed (NLPAnalyzer_init insertion_seed)
    (lit "The cat saw the CAT, a dog2 and foo_bar") 3
  = [].
Proof. reflexivity. Qed.

Example extract_keywords_backspace_example :
  extract_keywords insertion_seed (NLPAnalyzer_init insertion_seed)
    (lit "The" ++ backspace :: lit " CAT" ++ backspace :: lit " the"
     ++ [backspace]) 3
  = [lit "cat" ++ [backspace]; lit "the" ++ [backspace]].
Proof. reflexivity. Qed.

(** ** Sets under any hash seed *)

Lemma mem_true_iff (x : str) (l : list str) : mem x l = true <-> In x l.
Proof.
  unfold mem. destruct (in_dec str_eq_dec x l); split; intros; auto; discriminate.
Qed.

Lemma mem_ext (x : str) (l1 l2 : list str) :
  (forall y, In y l1 <-> In y l2) -> mem x l1 = mem x l2.
Proof.
  intros H. unfold mem.
  destruct (in_dec str_eq_dec x l1) as [H1 | H1], (in_dec str_eq_dec x l2) as [H2 | H2];
    try reflexivity; exfalso; [apply H2, H, H1 | apply H1, H, H2].
Qed.

Lemma filter_length_perm {A : Type} (f : A -> bool) (l1 l2 : list A) :
  Permutation l1 l2 -> length (filter f l1) = length (filter f l2).
Proof.
  induction 1 as [| x l1 l2 _ IH | x y l | l1 l2 l3 _ IH1 _ IH2]; simpl.
  - reflexivity.
  - destruct (f x); simpl; congruence.
  - destruct (f x), (f y); reflexivity.
  - congruence.
Qed.

Section Seed.

Variable h : HashSeed.

Lemma set_of_perm (l : list str) :
  Permutation (set_of h l) (nodup str_eq_dec l).
Proof. apply iter_order_perm. Qed.

Lemma set_of_length (l : list str) : length (set_of h l) = unique_count l.
Proof. apply Permutation_length, set_of_perm. Qed.

Lemma set_of_In (x : str) (l : list str) : In x (set_of h l) <-> In x l.
Proof.
  split; intros H.
  - apply (nodup_In str_eq_dec). eapply Permutation_in; [apply set_of_perm | exact H].
  - eapply Permutation_in; [apply Permutation_sym, set_of_perm |].
    now apply nodup_In.
Qed.

Lemma set_of_NoDup (l : list str) : NoDup (set_of h l).
Proof.
  eapply Permutation_NoDup; [apply Permutation_sym, set_of_perm |].
  apply NoDup_nodup.
Qed.

Lemma set_of_nil_iff (l : list str) : set_of h l = [] <-> l = [].
Proof.
  split; intros H.
  - destruct l as [| x l]; [reflexivity |].
    assert (Hx : In x (set_of h (x :: l))) by (apply set_of_In; now left).
    rewrite H in Hx. destruct Hx.
  - subst l. apply Permutation_nil. apply Permutation_sym, set_of_perm.
Qed.

Lemma mem_set_of (x : str) (l : list str) : mem x (set_of h l) = mem x l.
Proof. apply mem_ext. intros y. apply set_of_In. Qed.

Lemma intersection_length (a b : pyset) :
  length (intersection h a b) = length (filter (fun x => mem x b) a).
Proof. apply Permutation_length, iter_order_perm. Qed.

(** The size of the intersection of two sets does not depend on the
    order in which either is stored. *)
Lemma intersection_set_of_length (l s : list str) :
  length (intersection h (set_of h l) (set_of h s)) = common_count l s.
Proof.
  rewrite intersection_length. unfold common_count.
  rewrite (filter_length_perm _ _ _ (set_of_perm l)).
  f_equal. apply filter_ext. intros x. apply mem_set_of.
Qed.

End Seed.

Lemma unique_count_0 (l : list str) : unique_count l = 0%nat <-> l = [].
Proof.
  unfold unique_count. split; intros H; [| now subst].
  destruct l as [| x l]; [reflexivity |].
  assert (Hx : In x (nodup str_eq_dec (x :: l))) by (apply nodup_In; now left).
  destruct (nodup str_eq_dec (x :: l)); [destruct Hx | discriminate].
Qed.

Lemma unique_count_le (l : list str) : (unique_count l <= length l)%nat.
Proof.
  unfold unique_count. induction l as [| x l IH]; simpl; [lia |].
  destruct (in_dec str_eq_dec x l); simpl; lia.
Qed.

Lemma common_count_le (l s : list str) : (common_count l s <= unique_count l)%nat.
Proof. apply filter_length_le. Qed.

Lemma common_count_self (l : list str) : common_count l l = unique_count l.
Proof.
  unfold common_count, unique_count. f_equal.
  apply forallb_filter_id. apply forallb_forall.
  intros x Hx. apply mem_true_iff. apply -> (nodup_In str_eq_dec) in Hx. exact Hx.
Qed.

(** ** Counters *)

Section CounterFacts.

Context {A : Type} (dec : forall a b : A, {a = b} + {a <> b}).

Lemma cget_counter_add (x y : A) (c : list (A * nat)) :
  counter_get dec y (counter_add dec x c) = if dec y x then S (counter_get dec y c) else counter_get dec y c.
Proof.
  induction c as [| [z n] c IH]; simpl.
  - destruct (dec y x); reflexivity.
  - destruct (dec x z) as [-> | Hxz]; simpl.
    + destruct (dec y z); reflexivity.
    + destruct (dec y z) as [-> | Hyz].
      * destruct (dec z x); [congruence | reflexivity].
      * exact IH.
Qed.

Lemma keys_counter_add (x : A) (c : list (A * nat)) :
  keys (counter_add dec x c)
  = if in_dec dec x (keys c) then keys c else keys c ++ [x].
Proof.
  induction c as [| [z n] c IH]; simpl; [reflexivity |].
  destruct (dec x z) as [-> | Hxz]; simpl.
  - destruct (dec z z); [reflexivity | contradiction].
  - rewrite IH. destruct (dec z x); [congruence |].
    destruct (in_dec dec x (keys c)); reflexivity.
Qed.

Lemma counter_fold_cget (l : list A) (c : list (A * nat)) (y : A) :
  counter_get dec y (fold_left (fun c x => counter_add dec x c) l c)
  = (counter_get dec y c + count_occ dec l y)%nat.
Proof.
  revert c. induction l as [| x l IH]; intros c; simpl; [lia |].
  rewrite IH, cget_counter_add.
  destruct (dec y x) as [Hyx | Hyx], (dec x y) as [Hxy | Hxy]; try congruence; lia.
Qed.

Lemma counter_fold_keys_In (l : list A) (c : list (A * nat)) (y : A) :
  In y (keys (fold_left (fun c x => counter_add dec x c) l c))
  <-> In y (keys c) \/ In y l.
Proof.
  revert c. induction l as [| x l IH]; intros c; simpl; [tauto |].
  rewrite IH, keys_counter_add.
  destruct (in_dec dec x (keys c)) as [Hx | Hx].
  - split; [tauto |]. intros [H | [-> | H]]; tauto.
  - rewrite in_app_iff. simpl. tauto.
Qed.

Lemma counter_fold_keys_NoDup (l : list A) (c : list (A * nat)) :
  NoDup (keys c) ->
  NoDup (keys (fold_left (fun c x => counter_add dec x c) l c)).
Proof.
  revert c. induction l as [| x l IH]; intros c Hc; simpl; [exact Hc |].
  apply IH. rewrite keys_counter_add.
  destruct (in_dec dec x (keys c)) as [Hx | Hx]; [exact Hc |].
  apply NoDup_app; [exact Hc | repeat constructor; intros [] |].
  intros a Ha [<- | []]. contradiction.
Qed.

Lemma cget_In (k : A) (n : nat) (c : list (A * nat)) :
  NoDup (keys c) -> In (k, n) c -> counter_get dec k c = n.
Proof.
  induction c as [| [z m] c IH]; simpl; intros Hnd Hin; [destruct Hin |].
  inversion Hnd as [| ? ? Hz Hnd']; subst.
  destruct Hin as [Heq | Hin].
  - inversion Heq; subst. destruct (dec k k); [reflexivity | contradiction].
  - destruct (dec k z) as [-> | Hkz]; [| now apply IH].
    exfalso. apply Hz. change z with (fst (z, n)). now apply in_map.
Qed.

Lemma In_keys_cget (k : A) (c : list (A * nat)) :
  In k (keys c) -> In (k, counter_get dec k c) c.
Proof.
  induction c as [| [z m] c IH]; simpl; intros Hin; [destruct Hin |].
  destruct (dec k z) as [-> | Hkz]; [now left |].
  right. apply IH. destruct Hin as [Heq | Hin]; [congruence | exact Hin].
Qed.

Lemma NoDup_keys_NoDup {B : Type} (c : list (A * B)) : NoDup (keys c) -> NoDup c.
Proof.
  induction c as [| p c IH]; simpl; intros Hnd; constructor;
    inversion Hnd; subst; auto.
  intros Hin. apply H1. now apply in_map.
Qed.

(** A counter holds every distinct element once, with the number of its
    occurrences. *)
Lemma Counter_perm (l : list A) :
  Permutation (Counter dec l)
              (map (fun k => (k, count_occ dec l k)) (nodup dec l)).
Proof.
  pose proof (counter_fold_keys_NoDup l [] (NoDup_nil A)) as Hnd.
  fold (Counter dec l) in Hnd.
  apply NoDup_Permutation.
  - now apply NoDup_keys_NoDup.
  - apply Finite.Injective_map_NoDup; [| apply NoDup_nodup].
    intros a b Hab. now inversion Hab.
  - intros [k n]. rewrite in_map_iff. split.
    + intros Hin. exists k.
      assert (Hk : In k (keys (Counter dec l)))
        by (change k with (fst (k, n)); now apply in_map).
      apply counter_fold_keys_In in Hk. destruct Hk as [[] | Hk].
      split; [| now apply nodup_In].
      f_equal. rewrite <- (cget_In k n _ Hnd Hin).
      unfold Counter. now rewrite counter_fold_cget.
    + intros [k' [Heq Hk']]. inversion Heq; subst k' n.
      apply nodup_In in Hk'.
      assert (Hk : In k (keys (Counter dec l)))
        by (apply counter_fold_keys_In; now right).
      apply In_keys_cget in Hk.
      unfold Counter in Hk at 1. rewrite counter_fold_cget in Hk. exact Hk.
Qed.

Lemma Counter_values_perm (l : list A) :
  Permutation (values (Counter dec l)) (map (count_occ dec l) (nodup dec l)).
Proof.
  unfold values.
  rewrite (Permutation_map snd (Counter_perm l)), map_map. simpl.
  apply Permutation_refl.
Qed.

Lemma Counter_length (l : list A) :
  length (Counter dec l) = length (nodup dec l).
Proof.
  rewrite (Permutation_length (Counter_perm l)). apply length_map.
Qed.

(** The counter of a list without duplicates lists its elements in
    order, each with count one. *)
Lemma counter_fold_NoDup (l : list A) (c : list (A * nat)) :
  NoDup l -> (forall x, In x l -> ~ In x (keys c)) ->
  fold_left (fun c x => counter_add dec x c) l c
  = c ++ map (fun k => (k, 1%nat)) l.
Proof.
  revert c. induction l as [| x l IH]; intros c Hnd Hc; simpl.
  - now rewrite app_nil_r.
  - inversion Hnd as [| ? ? Hx Hnd']; subst.
    assert (Hadd : counter_add dec x c = c ++ [(x, 1%nat)]).
    { assert (Hxc : ~ In x (keys c)) by (apply Hc; now left).
      clear - Hxc. induction c as [| [z n] c IH]; simpl; [reflexivity |].
      simpl in Hxc. destruct (dec x z) as [-> | Hxz]; [tauto |].
      rewrite IH; tauto. }
    rewrite IH; [| exact Hnd' |].
    + rewrite Hadd, <- app_assoc. reflexivity.
    + intros y Hy. rewrite Hadd. unfold keys. rewrite map_app, in_app_iff. simpl.
      intros [Hin | [<- | []]]; [| contradiction].
      apply (Hc y); [now right | exact Hin].
Qed.

Lemma Counter_NoDup (l : list A) :
  NoDup l -> Counter dec l = map (fun k => (k, 1%nat)) l.
Proof.
  intros Hnd. unfold Counter. rewrite counter_fold_NoDup; auto.
Qed.

End CounterFacts.

(** ** Strings *)

Lemma lower_cons (c : char) (s : str) : lower (c :: s) = lower_char c ++ lower s.
Proof. reflexivity. Qed.

Lemma lower_app (s1 s2 : str) : lower (s1 ++ s2) = lower s1 ++ lower s2.
Proof. apply flat_map_app. Qed.

(** No character occurs twice in the lower case of one character. *)
Lemma count_occ_lower_char (c d : char) :
  (count_occ char_eq_dec (lower_char c) d <= 1)%nat.
Proof.
  destruct c as [a | |]; cbn [lower_char count_occ].
  - destruct (char_eq_dec (Latin1 _) d); lia.
  - destruct (char_eq_dec (Latin1 "i") d) as [<- | _].
    + destruct (char_eq_dec U0307 (Latin1 "i")); [discriminate | lia].
    + destruct (char_eq_dec U0307 d); lia.
  - destruct (char_eq_dec U0307 d); lia.
Qed.

(** A character of the lower-cased text occurs there at most as often as
    the text is long. *)
Lemma count_occ_lower_le (s : str) (d : char) :
  (count_occ char_eq_dec (lower s) d <= length s)%nat.
Proof.
  induction s as [| c s IH]; [simpl; lia |].
  rewrite lower_cons, count_occ_app.
  pose proof (count_occ_lower_char c d). simpl. lia.
Qed.

(** Lower-casing keeps the length of a text without U+0130. *)
Lemma lower_length (s : str) : ~ In U0130 s -> length (lower s) = length s.
Proof.
  induction s as [| c s IH]; intros H; [reflexivity |].
  rewrite lower_cons, length_app, IH by (intros Hin; apply H; now right).
  destruct c as [a | |]; [reflexivity | | reflexivity].
  exfalso. apply H. now left.
Qed.

Lemma lower_nil_iff (s : str) : lower s = [] <-> s = [].
Proof.
  split; [| now intros ->].
  destruct s as [| c s]; [reflexivity |].
  rewrite lower_cons. destruct c; discriminate.
Qed.

Lemma split_on_from_length (sep : char) (s cur : str) :
  (1 <= length (split_on_from sep cur s))%nat.
Proof.
  revert cur. induction s as [| c s IH]; intros cur; simpl; [lia |].
  destruct (char_eq_dec c sep); simpl; [lia | apply IH].
Qed.

Lemma split_ws_from_app_token (t s cur : str) :
  forallb (fun c => negb (isspace c)) t = true ->
  split_ws_from cur (t ++ s) = split_ws_from (rev t ++ cur) s.
Proof.
  revert cur. induction t as [| c t IH]; intros cur Ht; [reflexivity |].
  simpl in Ht. apply andb_true_iff in Ht. destruct Ht as [Hc Ht].
  apply negb_true_iff in Hc. simpl. rewrite Hc, (IH (c :: cur) Ht).
  now rewrite <- app_assoc.
Qed.

Lemma split_ws_from_spaces_nil (sp rest : str) :
  forallb isspace sp = true ->
  split_ws_from [] (sp ++ rest) = split_ws_from [] rest.
Proof.
  induction sp as [| c sp IH]; intros H; [reflexivity |].
  simpl in H. apply andb_true_iff in H. destruct H as [Hc H].
  simpl. rewrite Hc. now apply IH.
Qed.

Lemma split_ws_from_spaces (sp rest cur : str) :
  sp <> [] -> forallb isspace sp = true ->
  split_ws_from cur (sp ++ rest)
  = match cur with
    | [] => split_ws_from [] rest
    | _ :: _ => rev cur :: split_ws_from [] rest
    end.
Proof.
  intros Hne H. destruct sp as [| c sp]; [contradiction |].
  simpl in H. apply andb_true_iff in H. destruct H as [Hc H].
  simpl. rewrite Hc.
  destruct cur; now rewrite split_ws_from_spaces_nil.
Qed.

(** Lower-casing turns white space into white space and other characters
    into other characters. *)
Lemma lower_char_space (c : char) :
  isspace c = true -> forallb isspace (lower_char c) = true.
Proof.
  destruct c as [a | |]; [| discriminate | discriminate].
  destruct a as [[] [] [] [] [] [] [] []]; simpl; intros H;
    first [reflexivity | discriminate H].
Qed.

Lemma lower_char_nonspace (c : char) :
  isspace c = false ->
  forallb (fun d => negb (isspace d)) (lower_char c) = true.
Proof.
  destruct c as [a | |]; [| reflexivity | reflexivity].
  destruct a as [[] [] [] [] [] [] [] []]; simpl; intros H;
    first [reflexivity | discriminate H].
Qed.

Lemma lower_char_nonempty (c : char) : lower_char c <> [].
Proof. destruct c; discriminate. Qed.

Lemma rev_nil_inv {A : Type} (l : list A) : rev l = [] -> l = [].
Proof.
  intros H. apply (f_equal (@length A)) in H. rewrite length_rev in H.
  now apply length_zero_iff_nil.
Qed.

(** The tokens of the lower-cased text are the lower-cased tokens. *)
Lemma split_ws_from_lower (s cur : str) :
  split_ws_from (rev (lower (rev cur))) (lower s)
  = map lower (split_ws_from cur s).
Proof.
  revert cur. induction s as [| c s IH]; intros cur.
  - change (lower []) with (@nil char). cbn [split_ws_from].
    destruct cur as [| d cur]; [reflexivity |].
    destruct (rev (lower (rev (d :: cur)))) eqn:E.
    + exfalso. apply rev_nil_inv, lower_nil_iff, rev_nil_inv in E.
      discriminate.
    + rewrite <- E, rev_involutive. reflexivity.
  - rewrite lower_cons. cbn [split_ws_from].
    destruct (isspace c) eqn:Ec.
    + rewrite (split_ws_from_spaces _ _ _ (lower_char_nonempty c)
                 (lower_char_space c Ec)).
      change (split_ws_from [] (lower s))
        with (split_ws_from (rev (lower (rev []))) (lower s)).
      rewrite (IH []).
      destruct cur as [| d cur]; [reflexivity |].
      destruct (rev (lower (rev (d :: cur)))) eqn:E.
      * exfalso. apply rev_nil_inv, lower_nil_iff, rev_nil_inv in E.
        discriminate.
      * rewrite <- E, rev_involutive. reflexivity.
    + rewrite (split_ws_from_app_token _ _ _ (lower_char_nonspace c Ec)).
      rewrite <- (IH (c :: cur)). f_equal.
      cbn [rev]. rewrite lower_app, rev_app_distr.
      cbn [lower flat_map]. now rewrite app_nil_r.
Qed.

Lemma split_lower (s : str) : split (lower s) = map lower (split s).
Proof. apply (split_ws_from_lower s []). Qed.

Lemma split_lower_length (s : str) :
  length (split (lower s)) = length (split s).
Proof. rewrite split_lower. apply length_map. Qed.

Lemma sum_len_concat (words : list str) : sum_len words = length (concat words).
Proof.
  unfold sum_len.
  assert (H : forall acc,
             fold_left (fun a w => (a + length w)%nat) words acc
             = (acc + length (concat words))%nat).
  { induction words as [| w words IH]; intros acc; simpl; [lia |].
    rewrite IH, length_app. lia. }
  apply H.
Qed.

(** ** Loops *)

Lemma for_each_sum {A : Type} (P : A -> Prop) (f : A -> R)
  (body : R -> A -> result R) (l : list A) (a : R) :
  Forall P l ->
  (forall a x, P x -> body a x = Ok (a + f x)) ->
  for_each body l a = Ok (a + Rsum (map f l)).
Proof.
  intros Hl Hbody. revert a.
  induction Hl as [| x l Hx _ IH]; intros a; simpl.
  - f_equal. lra.
  - rewrite (Hbody a x Hx). simpl. rewrite IH. f_equal. lra.
Qed.

Lemma Rsum_map_filter {A : Type} (p : A -> bool) (f : A -> R) (l : list A) :
  Rsum (map (fun x => if p x then f x else 0) l) = Rsum (map f (filter p l)).
Proof.
  induction l as [| x l IH]; simpl; [reflexivity |].
  destruct (p x); simpl; rewrite IH; lra.
Qed.

Lemma Rsum_map_opp {A : Type} (f : A -> R) (l : list A) :
  Rsum (map (fun x => - f x) l) = - Rsum (map f l).
Proof.
  induction l as [| x l IH]; simpl; [lra |].
  fold (Rsum (map (fun x => - f x) l)). fold (Rsum (map f l)). lra.
Qed.

Lemma match_nil_length {A B : Type} (l : list A) (a b : B) :
  match l with [] => a | _ :: _ => b end
  = if (length l =? 0)%nat then a else b.
Proof. destruct l; reflexivity. Qed.

(** A ratio behind the guard [... if l else 0]. *)
Lemma truediv_guard {A : Type} (l : list A) (a : R) :
  (l = [] -> a = 0) ->
  match l with [] => Ok 0 | _ :: _ => truediv a (INR (length l)) end
  = Ok (a / INR (length l)).
Proof.
  intros H. destruct l as [| x l].
  - rewrite H by reflexivity. f_equal. unfold Rdiv. now rewrite Rmult_0_l.
  - apply truediv_INR. simpl. lia.
Qed.

(** ** What each function returns *)

Lemma calculate_complexity_score_eq (h : HashSeed) (self : NLPAnalyzer)
  (text : str) :
  calculate_complexity_score h self text
  = Ok (match text with [] => 0 | _ :: _ => complexity_spec text end).
Proof.
  destruct text as [| c t]; [reflexivity |].
  unfold calculate_complexity_score, complexity_spec.
  set (text := c :: t). set (words := split text).
  rewrite (truediv_guard words).
  2:{ intros ->. reflexivity. }
  cbn [bind].
  rewrite (truediv_guard (split_on (Latin1 ".") text)).
  2:{ intros H. pose proof (split_on_from_length (Latin1 ".") text []) as Hl.
      unfold split_on in H. rewrite H in Hl. simpl in Hl. lia. }
  cbn [bind].
  rewrite (truediv_guard words).
  2:{ intros ->. rewrite set_of_length. reflexivity. }
  cbn [bind].
  rewrite !truediv_ok by lra. cbn [bind].
  rewrite set_of_length, sum_len_concat.
  f_equal. f_equal. ring.
Qed.

Lemma analyze_sentiment_basic_eq (h : HashSeed) (self : NLPAnalyzer)
  (text : str) :
  analyze_sentiment_basic h self text = Ok (sentiment_spec text).
Proof.
  unfold analyze_sentiment_basic, sentiment_spec.
  rewrite !intersection_set_of_length.
  set (p := common_count _ positive_words_literal).
  set (n := common_count _ negative_words_literal).
  destruct (p + n =? 0)%nat eqn:E; [reflexivity |].
  apply Nat.eqb_neq in E.
  rewrite truediv_INR by lia. cbn [bind].
  destruct (Rgt_dec _ _); [reflexivity |].
  destruct (Rlt_dec _ _); reflexivity.
Qed.

Lemma Counter_counts_bounds {A : Type} (dec : forall a b : A, {a = b} + {a <> b})
  (l : list A) :
  Forall (fun n => (1 <= n <= length l)%nat) (values (Counter dec l)).
Proof.
  eapply Permutation_Forall; [apply Permutation_sym, Counter_values_perm |].
  apply Forall_forall. intros n Hn. apply in_map_iff in Hn.
  destruct Hn as [x [<- Hx]]. apply nodup_In in Hx.
  split; [now apply count_occ_In | apply count_occ_bound].
Qed.

Lemma calculate_entropy_eq (self : NLPAnalyzer) (text : str) :
  calculate_entropy self text = Ok (entropy_value text).
Proof.
  unfold entropy_value.
  destruct text as [| c t].
  - simpl. f_equal. lra.
  - unfold calculate_entropy. set (text := c :: t).
    set (term := fun count : nat =>
                   - (INR count / INR (length text)
                      * log2r (INR count / INR (length text)))).
    rewrite (for_each_sum (fun n => (1 <= n <= length (lower text))%nat) term).
    + f_equal.
      rewrite (Rsum_perm _ _ (Permutation_map term (Counter_values_perm char_eq_dec (lower text)))).
      rewrite map_map, Rplus_0_l. unfold term.
      apply (Rsum_map_opp
               (fun x => INR (count_occ char_eq_dec (lower text) x) / INR (length text)
                         * log2r (INR (count_occ char_eq_dec (lower text) x)
                                  / INR (length text)))).
    + apply Counter_counts_bounds.
    + intros a n [Hn1 _].
      assert (Hlen : (0 < length text)%nat) by (simpl; lia).
      rewrite truediv_INR by exact Hlen. cbn [bind].
      assert (Hp : 0 < INR n / INR (length text)).
      { apply Rdiv_lt_0_compat; apply lt_0_INR; lia. }
      destruct (Rgt_dec _ 0) as [_ | Hneg]; [| exfalso; apply Hneg; exact Hp].
      rewrite log2_ok by exact Hp. cbn [bind]. reflexivity.
Qed.

Lemma calculate_novelty_score_eq (h : HashSeed) (self : NLPAnalyzer)
  (current_text : str) (existing_texts : list str) (n : nat) :
  calculate_novelty_score h self current_text existing_texts n
  = Ok (novelty_spec self current_text existing_texts n).
Proof.
  unfold calculate_novelty_score, novelty_spec.
  destruct existing_texts as [| r rs]; [reflexivity |].
  set (refs := r :: rs). set (cur := extract_ngrams self current_text n).
  rewrite match_nil_length, set_of_length.
  destruct (unique_count cur =? 0)%nat eqn:Ecur; [reflexivity |].
  rewrite (for_each_sum (fun _ => True)
             (fun x => if negb (unique_count (extract_ngrams self x n) =? 0)%nat
                       then overlap_ratio cur (extract_ngrams self x n) else 0)).
  - cbn [bind]. rewrite truediv_INR by (simpl; lia). cbn [bind].
    rewrite Rsum_map_filter, Rplus_0_l. reflexivity.
  - apply Forall_forall. trivial.
  - intros a x _. rewrite match_nil_length, !set_of_length.
    destruct (unique_count (extract_ngrams self x n) =? 0)%nat eqn:Ex; simpl negb; cbv iota.
    + f_equal. lra.
    + apply Nat.eqb_neq in Ecur, Ex.
      destruct (0 <? _)%nat eqn:Emax; [| apply Nat.ltb_ge in Emax; lia].
      apply Nat.ltb_lt in Emax.
      rewrite truediv_INR by exact Emax. cbn [bind].
      rewrite intersection_set_of_length. reflexivity.
Qed.

Lemma calculate_repetition_score_eq (self : NLPAnalyzer) (text : str) :
  calculate_repetition_score self text
  = Ok (let words := split (lower text) in
        if (length words <=? 1)%nat then 0
        else Rmin (1 - INR (unique_count words) / INR (length words)) 1).
Proof.
  unfold calculate_repetition_score. cbv zeta.
  destruct (length (split (lower text)) <=? 1)%nat eqn:E; [reflexivity |].
  apply Nat.leb_gt in E.
  rewrite truediv_INR by lia. cbn [bind].
  rewrite Counter_length. reflexivity.
Qed.

Lemma dict_set_fresh {V : Type} (k : str) (v : V) (d : dict V) :
  ~ In k (keys d) -> dict_set k v d = d ++ [(k, v)].
Proof.
  induction d as [| [k' v'] d IH]; simpl; intros Hk; [reflexivity |].
  destruct (str_eq_dec k k') as [-> | Hne]; [tauto |].
  rewrite IH; tauto.
Qed.

Lemma dict_get_map_const {V : Type} (k : str) (v : V) (l : list str) :
  In k l -> dict_get k (map (fun x => (x, v)) l) = Some v.
Proof.
  induction l as [| x l IH]; simpl; intros Hk; [destruct Hk |].
  destruct (str_eq_dec k x) as [_ | Hne]; [reflexivity |].
  apply IH. destruct Hk as [Heq | Hk]; [congruence | exact Hk].
Qed.

(** Every keyword is counted once, so every keyword gets the density
    [1 / total_words]. *)
Lemma calculate_keyword_density_eq (h : HashSeed) (self : NLPAnalyzer)
  (text : str) :
  calculate_keyword_density h self text
  = Ok (let total_words := length (split text) in
        if (total_words =? 0)%nat then []
        else map (fun keyword => (keyword, 1 / INR total_words))
                 (extract_keywords h self text 3)).
Proof.
  unfold calculate_keyword_density. cbv zeta.
  destruct (length (split text) =? 0)%nat eqn:E; [reflexivity |].
  apply Nat.eqb_neq in E.
  set (total := length (split text)) in *.
  assert (Hnd : NoDup (extract_keywords h self text 3)) by apply set_of_NoDup.
  rewrite (Counter_NoDup str_eq_dec _ Hnd).
  set (body := fun (densities : dict R) (item : str * nat) =>
                 let '(keyword, count) := item in
                 d <- truediv (INR count) (INR total) ;;
                 Ok (dict_set keyword d densities)).
  assert (Hloop : forall l d,
             NoDup l -> (forall x, In x l -> ~ In x (keys d)) ->
             for_each body (map (fun k => (k, 1%nat)) l) d
             = Ok (d ++ map (fun k => (k, 1 / INR total)) l)).
  { induction l as [| x l IH]; intros d Hl Hd; simpl.
    - now rewrite app_nil_r.
    - inversion Hl as [| ? ? Hx Hl']; subst.
      rewrite truediv_INR by lia. cbn [bind].
      rewrite dict_set_fresh by (apply Hd; now left).
      rewrite IH; [now rewrite <- app_assoc | exact Hl' |].
      intros y Hy. unfold keys. rewrite map_app, in_app_iff. simpl.
      intros [Hin | [<- | []]]; [| contradiction].
      apply (Hd y); [now right | exact Hin]. }
  apply (Hloop _ [] Hnd). intros x _ [].
Qed.

(** ** Ranges *)

Ltac minmax :=
  unfold clamp, Rmin, Rmax; repeat destruct (Rle_dec _ _); try lra.

Lemma ratio_nonneg (a b : nat) : 0 <= INR a / INR b.
Proof.
  destruct b as [| b].
  - simpl. rewrite Rdiv_0_r. lra.
  - apply Rmult_le_pos; [apply pos_INR |].
    left. apply Rinv_0_lt_compat. apply lt_0_INR. lia.
Qed.

Lemma complexity_spec_range (text : str) : 0 <= complexity_spec text <= 1.
Proof.
  unfold complexity_spec. cbv zeta.
  pose proof (ratio_nonneg (length (concat (split text))) (length (split text))) as H1.
  pose proof (ratio_nonneg (length (split text)) (length (split_on (Latin1 ".") text))) as H2.
  pose proof (ratio_bounds _ _ (unique_count_le (split text))) as H3.
  minmax.
Qed.

Lemma sentiment_spec_range (text : str) : 0 <= snd (sentiment_spec text) <= 1.
Proof.
  unfold sentiment_spec. cbv zeta.
  set (p := common_count _ positive_words_literal).
  set (n := common_count _ negative_words_literal).
  destruct (p + n =? 0)%nat; [simpl; lra |].
  assert (Hs : 0 <= INR p / INR (p + n) <= 1) by (apply ratio_bounds; lia).
  destruct (Rgt_dec _ _); [simpl; lra |].
  destruct (Rlt_dec _ _); simpl; lra.
Qed.

(** The sentiment factor of the scorer. *)
Lemma sentiment_factor_range (text : str) :
  0 <= (if str_eq_dec (fst (sentiment_spec text)) (lit "neutral") then 0.3
        else snd (sentiment_spec text)) <= 1.
Proof.
  destruct (str_eq_dec _ _); [lra | apply sentiment_spec_range].
Qed.

Lemma entropy_value_nonneg (text : str) : 0 <= entropy_value text.
Proof.
  unfold entropy_value. cbv zeta. set (s := lower text).
  assert (H : Forall (fun x => 0 <= x)
                (map (fun c => - (INR (count_occ char_eq_dec s c) / INR (length text)
                                  * log2r (INR (count_occ char_eq_dec s c)
                                           / INR (length text))))
                     (nodup char_eq_dec s))).
  { apply Forall_forall. intros x Hx. apply in_map_iff in Hx.
    destruct Hx as [c [<- Hc]]. apply nodup_In in Hc.
    assert (H1 : (1 <= count_occ char_eq_dec s c)%nat) by now apply count_occ_In.
    pose proof (count_occ_lower_le text c) as H2. fold s in H2.
    pose proof (ratio_bounds _ _ H2) as [_ Hle].
    assert (Hpos : 0 < INR (count_occ char_eq_dec s c) / INR (length text)).
    { apply Rdiv_lt_0_compat; apply lt_0_INR; lia. }
    pose proof (log2r_nonpos _ Hpos Hle). nra. }
  apply Rsum_nonneg in H. rewrite Rsum_map_opp in H. exact H.
Qed.

Lemma overlap_ratio_range (current reference : list str) :
  0 <= overlap_ratio current reference <= 1.
Proof.
  apply ratio_bounds.
  pose proof (common_count_le current reference). lia.
Qed.

Lemma novelty_spec_range (self : NLPAnalyzer) (current_text : str)
  (reference_texts : list str) (n : nat) :
  0 <= novelty_spec self current_text reference_texts n <= 1.
Proof.
  unfold novelty_spec. cbv zeta.
  destruct reference_texts as [| r rs]; [lra |].
  destruct (_ =? 0)%nat; [lra |].
  set (ratios := map _ _).
  assert (Hsum : 0 <= Rsum ratios).
  { apply Rsum_nonneg, Forall_forall. intros x Hx. apply in_map_iff in Hx.
    destruct Hx as [t [<- _]]. apply overlap_ratio_range. }
  assert (Havg : 0 <= Rsum ratios / INR (length (r :: rs))).
  { apply Rmult_le_pos; [exact Hsum |].
    left. apply Rinv_0_lt_compat, lt_0_INR. simpl. lia. }
  minmax.
Qed.

Lemma repetition_range (words : list str) :
  0 <= (if (length words <=? 1)%nat then 0
        else Rmin (1 - INR (unique_count words) / INR (length words)) 1) <= 1.
Proof.
  destruct (length words <=? 1)%nat; [lra |].
  pose proof (ratio_bounds _ _ (unique_count_le words)). minmax.
Qed.

Lemma clamp_range (x : R) : 0 <= clamp x 0 1 <= 1.
Proof. minmax. Qed.

Lemma length_factor_range (content : str) :
  0 <= Rmin (INR (length content) / 500) 1 <= 1.
Proof.
  pose proof (pos_INR (length content)). minmax.
Qed.

Lemma entropy_factor_range (content : str) :
  0 <= Rmin (entropy_value content / 5) 1 <= 1.
Proof.
  pose proof (entropy_value_nonneg content). minmax.
Qed.

(** ** The scorer *)

Lemma calculate_enhanced_importance_eq (h : HashSeed)
  (self : EnhancedThoughtScorer) (c : char) (t : str)
  (lw cw nw sw ew : R) (existing_content : option (list str)) :
  calculate_enhanced_importance h self (c :: t) lw cw nw sw ew existing_content
  = Ok (importance_breakdown (nlp self) (c :: t) lw cw nw sw ew existing_content).
Proof.
  unfold calculate_enhanced_importance, importance_breakdown.
  set (content := c :: t).
  rewrite truediv_ok by lra. cbn [bind].
  rewrite calculate_complexity_score_eq. cbn [bind].
  assert (Hnov :
    match existing_content with
    | Some (t0 :: ts) => calculate_novelty_score h (nlp self) content (t0 :: ts) 3
    | _ => Ok 1
    end
    = Ok match reference_list existing_content with
         | [] => 1
         | r :: rs => novelty_spec (nlp self) content (r :: rs) 3
         end).
  { destruct existing_content as [[| r rs] |]; simpl reference_list; cbv iota;
      try reflexivity.
    apply calculate_novelty_score_eq. }
  rewrite Hnov. cbn [bind].
  rewrite analyze_sentiment_basic_eq. cbn [bind].
  destruct (sentiment_spec content) as [sentiment strength]. cbn [fst snd].
  rewrite calculate_entropy_eq. cbn [bind].
  rewrite truediv_ok by lra. cbn [bind].
  reflexivity.
Qed.

(** C1.  [calculate_enhanced_importance] returns [(0.0, {})] for the empty
    content.  For any other content, with any weights and with the
    reference list given, empty or absent, it returns the weighted sum of
    the five factors clamped to [0, 1], where the length factor is
    [min(len(content) / 500, 1)], the complexity factor is what
    [calculate_complexity_score] returns, the novelty factor is what
    [calculate_novelty_score] returns when the reference list is not
    empty and 1 otherwise, the sentiment factor is 0.3 for the label
    neutral and the sentiment strength otherwise, and the entropy factor
    is [min(calculate_entropy(content) / 5, 1)]. *)
Theorem calculate_enhanced_importance_formula (h : HashSeed)
  (self : EnhancedThoughtScorer) (content : str)
  (length_weight complexity_weight novelty_weight sentiment_weight
   entropy_weight : R)
  (existing_content : option (list str)) :
  match content with
  | [] =>
      calculate_enhanced_importance h self content length_weight
        complexity_weight novelty_weight sentiment_weight entropy_weight
        existing_content
      = Ok (0, [])
  | _ :: _ =>
      exists complexity_factor novelty_factor sentiment sentiment_strength
             entropy factors,
        calculate_complexity_score h (nlp self) content = Ok complexity_factor
        /\ match reference_list existing_content with
           | [] => novelty_factor = 1
           | references =>
               calculate_novelty_score h (nlp self) content references 3
               = Ok novelty_factor
           end
        /\ analyze_sentiment_basic h (nlp self) content
           = Ok (sentiment, sentiment_strength)
        /\ calculate_entropy (nlp self) content = Ok entropy
        /\ calculate_enhanced_importance h self content length_weight
             complexity_weight novelty_weight sentiment_weight entropy_weight
             existing_content
           = Ok (clamp
                   (Rmin (INR (length content) / 500) 1 * length_weight
                    + complexity_factor * complexity_weight
                    + novelty_factor * novelty_weight
                    + (if str_eq_dec sentiment (lit "neutral") then 0.3
                       else sentiment_strength) * sentiment_weight
                    + Rmin (entropy / 5) 1 * entropy_weight)
                   0 1,
                 factors)
  end.
Proof.
  destruct content as [| c t]; [reflexivity |].
  set (content := c :: t).
  exists (complexity_spec content).
  exists (match reference_list existing_content with
          | [] => 1
          | r :: rs => novelty_spec (nlp self) content (r :: rs) 3
          end).
  exists (fst (sentiment_spec content)), (snd (sentiment_spec content)).
  exists (entropy_value content).
  exists (snd (importance_breakdown (nlp self) content length_weight
                 complexity_weight novelty_weight sentiment_weight
                 entropy_weight existing_content)).
  repeat split.
  - apply calculate_complexity_score_eq.
  - destruct (reference_list existing_content) as [| r rs]; [reflexivity |].
    apply calculate_novelty_score_eq.
  - rewrite analyze_sentiment_basic_eq. now destruct (sentiment_spec content).
  - apply calculate_entropy_eq.
  - unfold content. rewrite calculate_enhanced_importance_eq. reflexivity.
Qed.

(** C10.  For a non-empty content the factors mapping has exactly the six
    keys [length_factor], [complexity_factor], [novelty_factor],
    [sentiment_factor], [entropy_factor] and [final_importance], and the
    value under [final_importance] is the importance score returned as
    the first component. *)
Theorem factors_keys_and_final_importance (h : HashSeed)
  (self : EnhancedThoughtScorer) (c : char) (t : str)
  (length_weight complexity_weight novelty_weight sentiment_weight
   entropy_weight : R)
  (existing_content : option (list str)) :
  exists importance factors,
    calculate_enhanced_importance h self (c :: t) length_weight
      complexity_weight novelty_weight sentiment_weight entropy_weight
      existing_content
    = Ok (importance, factors)
    /\ keys factors
       = [ lit "length_factor"; lit "complexity_factor"; lit "novelty_factor";
           lit "sentiment_factor"; lit "entropy_factor";
           lit "final_importance" ]
    /\ dict_get (lit "final_importance") factors = Some importance.
Proof.
  rewrite calculate_enhanced_importance_eq.
  unfold importance_breakdown. cbv zeta.
  eexists. eexists. split; [reflexivity |].
  split; reflexivity.
Qed.

(** C9.  The result of [calculate_enhanced_importance] is determined by
    its arguments: two calls with the same content, weights and reference
    list return the same score and the same factors, whatever the hash
    seed of the interpreter and whatever the state of the scorer object
    each call runs on. *)
Theorem calculate_enhanced_importance_deterministic
  (h1 h2 : HashSeed) (self1 self2 : EnhancedThoughtScorer) (content : str)
  (length_weight complexity_weight novelty_weight sentiment_weight
   entropy_weight : R)
  (existing_content : option (list str)) :
  calculate_enhanced_importance h1 self1 content length_weight
    complexity_weight novelty_weight sentiment_weight entropy_weight
    existing_content
  = calculate_enhanced_importance h2 self2 content length_weight
      complexity_weight novelty_weight sentiment_weight entropy_weight
      existing_content.
Proof.
  destruct content as [| c t]; [reflexivity |].
  rewrite !calculate_enhanced_importance_eq. reflexivity.
Qed.

(** C8.  For a non-empty text [calculate_complexity_score] is
    0.3 * min(average word length / 10, 1)
    + 0.4 * min((words / segments delimited by a full stop) / 20, 1)
    + 0.3 * (unique words / words), capped at 1; the empty string gives
    0. *)
Theorem calculate_complexity_score_formula (h : HashSeed)
  (self : NLPAnalyzer) (text : str) :
  calculate_complexity_score h self text
  = Ok match text with
       | [] => 0
       | _ :: _ =>
           let words := split text in
           let total_words := INR (length words) in
           Rmin (0.3 * Rmin (INR (length (concat words)) / total_words / 10) 1
                 + 0.4 * Rmin (total_words
                               / INR (length (split_on (Latin1 ".") text)) / 20) 1
                 + 0.3 * (INR (unique_count words) / total_words)) 1
       end.
Proof.
  apply calculate_complexity_score_eq.
Qed.

(** ** Sentiment *)

(** C5.  [analyze_sentiment_basic] lower-cases the text, splits it on
    white space into a set of tokens and counts the tokens that are
    positive words and those that are negative words.  When both counts
    are zero it returns (neutral, 0.5); otherwise, with
    [s = positive_count / (positive_count + negative_count)], it returns
    (positive, s) when [s > 0.6], (negative, 1 - s) when [s < 0.4] and
    (neutral, 0.5) otherwise.  The first example sentence is positive
    with a strength above 0.6; the second is exactly (neutral, 0.5). *)
Theorem analyze_sentiment_basic_cases :
  (forall (h : HashSeed) (self : NLPAnalyzer) (text : str),
      let tokens := split (lower text) in
      let positive_count := common_count tokens positive_words_literal in
      let negative_count := common_count tokens negative_words_literal in
      let s := INR positive_count / INR (positive_count + negative_count) in
      analyze_sentiment_basic h self text
      = Ok (if (positive_count + negative_count =? 0)%nat
            then (lit "neutral", 0.5)
            else if Rgt_dec s 0.6 then (lit "positive", s)
            else if Rlt_dec s 0.4 then (lit "negative", 1 - s)
            else (lit "neutral", 0.5)))
  /\ (forall (h : HashSeed) (self : NLPAnalyzer),
         exists strength,
           analyze_sentiment_basic h self
             (lit "I love this, it is great and wonderful")
           = Ok (lit "positive", strength)
           /\ strength > 0.6)
  /\ (forall (h : HashSeed) (self : NLPAnalyzer),
         analyze_sentiment_basic h self
           (lit "I am not sure why this keeps failing, can someone help me understand the error?")
         = Ok (lit "neutral", 0.5)).
Proof.
  split; [| split].
  - intros h self text. apply analyze_sentiment_basic_eq.
  - intros h self. exists 1. split; [| lra].
    rewrite analyze_sentiment_basic_eq. unfold sentiment_spec. cbv zeta.
    set (tokens := split (lower (lit "I love this, it is great and wonderful"))).
    replace (common_count tokens positive_words_literal) with 3%nat
      by (vm_compute; reflexivity).
    replace (common_count tokens negative_words_literal) with 0%nat
      by (vm_compute; reflexivity).
    cbn [Nat.add Nat.eqb].
    replace (INR 3 / INR 3) with 1 by (simpl; field).
    destruct (Rgt_dec 1 0.6) as [_ | Hn]; [reflexivity | exfalso; apply Hn; lra].
  - intros h self.
    rewrite analyze_sentiment_basic_eq. unfold sentiment_spec. cbv zeta.
    set (tokens := split (lower _)).
    replace (common_count tokens positive_words_literal) with 0%nat
      by (vm_compute; reflexivity).
    replace (common_count tokens negative_words_literal) with 0%nat
      by (vm_compute; reflexivity).
    reflexivity.
Qed.

(** ** Entropy *)

(** C7 at U+0130 followed by "a".  The lower-cased text has the three
    distinct characters i, U+0307 and a, each with relative frequency one
    third, so the entropy the claim states is [log2 3], above 1.5.  The
    code divides each count by [len(text) = 2] and returns
    [3 * (-(1/2) * log2 (1/2)) = 1.5].  The three examples of the claim
    hold: 0 for the empty string and for "aaaa", 1 for "ab". *)
Theorem calculate_entropy_divides_by_text_length (self : NLPAnalyzer) :
  let text := [U0130; Latin1 "a"] in
  lower text = [Latin1 "i"; U0307; Latin1 "a"]
  /\ calculate_entropy self text = Ok 1.5
  /\ entropy_spec text = log2r 3
  /\ 1.5 < log2r 3
  /\ calculate_entropy self (lit "") = Ok 0
  /\ calculate_entropy self (lit "aaaa") = Ok 0
  /\ calculate_entropy self (lit "ab") = Ok 1.
Proof.
  cbv zeta. split; [reflexivity |].
  assert (Hthird : log2r (1 / 3) = - log2r 3).
  { unfold log2r. replace (1 / 3) with (/ 3) by lra.
    rewrite ln_Rinv by lra. pose proof ln2_pos. field. lra. }
  split; [| split; [| split; [| split; [| split]]]].
  - rewrite calculate_entropy_eq. f_equal.
    unfold entropy_value. cbv zeta.
    change (lower [U0130; Latin1 "a"]) with [Latin1 "i"; U0307; Latin1 "a"].
    change (nodup char_eq_dec [Latin1 "i"; U0307; Latin1 "a"])
      with [Latin1 "i"; U0307; Latin1 "a"].
    cbn [map Rsum fold_right].
    change (count_occ char_eq_dec [Latin1 "i"; U0307; Latin1 "a"] (Latin1 "i"))
      with 1%nat.
    change (count_occ char_eq_dec [Latin1 "i"; U0307; Latin1 "a"] U0307)
      with 1%nat.
    change (count_occ char_eq_dec [Latin1 "i"; U0307; Latin1 "a"] (Latin1 "a"))
      with 1%nat.
    change (length [U0130; Latin1 "a"]) with 2%nat.
    replace (INR 1 / INR 2) with (1 / 2) by (simpl; field).
    rewrite log2r_half. lra.
  - unfold entropy_spec. cbv zeta.
    change (lower [U0130; Latin1 "a"]) with [Latin1 "i"; U0307; Latin1 "a"].
    change (nodup char_eq_dec [Latin1 "i"; U0307; Latin1 "a"])
      with [Latin1 "i"; U0307; Latin1 "a"].
    cbn [map Rsum fold_right].
    change (count_occ char_eq_dec [Latin1 "i"; U0307; Latin1 "a"] (Latin1 "i"))
      with 1%nat.
    change (count_occ char_eq_dec [Latin1 "i"; U0307; Latin1 "a"] U0307)
      with 1%nat.
    change (count_occ char_eq_dec [Latin1 "i"; U0307; Latin1 "a"] (Latin1 "a"))
      with 1%nat.
    change (length [Latin1 "i"; U0307; Latin1 "a"]) with 3%nat.
    replace (INR 1 / INR 3) with (1 / 3) by (simpl; field).
    rewrite Hthird. lra.
  - unfold log2r. pose proof ln2_pos as Hln2.
    assert (H98 : ln 8 < ln 9) by (apply ln_increasing; lra).
    replace 8 with (2 * (2 * 2)) in H98 by lra.
    replace 9 with (3 * 3) in H98 by lra.
    rewrite !ln_mult in H98 by lra.
    apply (Rmult_lt_reg_r (ln 2)); [exact Hln2 |].
    unfold Rdiv. rewrite Rmult_assoc, Rinv_l by lra. lra.
  - reflexivity.
  - rewrite calculate_entropy_eq. f_equal.
    unfold entropy_value. cbv zeta.
    change (lower (lit "aaaa")) with (lit "aaaa").
    change (nodup char_eq_dec (lit "aaaa")) with [Latin1 "a"].
    cbn [map Rsum fold_right].
    change (count_occ char_eq_dec (lit "aaaa") (Latin1 "a")) with 4%nat.
    change (length (lit "aaaa")) with 4%nat.
    replace (INR 4 / INR 4) with 1 by (simpl; field).
    rewrite log2r_1. lra.
  - rewrite calculate_entropy_eq. f_equal.
    unfold entropy_value. cbv zeta.
    change (lower (lit "ab")) with (lit "ab").
    change (nodup char_eq_dec (lit "ab")) with [Latin1 "a"; Latin1 "b"].
    cbn [map Rsum fold_right].
    change (count_occ char_eq_dec (lit "ab") (Latin1 "a")) with 1%nat.
    change (count_occ char_eq_dec (lit "ab") (Latin1 "b")) with 1%nat.
    change (length (lit "ab")) with 2%nat.
    replace (INR 1 / INR 2) with (1 / 2) by (simpl; field).
    rewrite log2r_half. lra.
Qed.

(** ** Novelty *)

Lemma extract_ngrams_length (self : NLPAnalyzer) (text : str) (n : nat) :
  (n <= length (split text))%nat ->
  length (extract_ngrams self text n) = (length (split text) - n + 1)%nat.
Proof.
  intros Hn. unfold extract_ngrams. cbv zeta.
  rewrite split_lower_length.
  destruct (length (split text) <? n)%nat eqn:E.
  - apply Nat.ltb_lt in E. lia.
  - now rewrite length_map, length_seq.
Qed.

(** C4.  At n-gram size 3 [calculate_novelty_score] returns 1 when there
    is no reference text; otherwise 0.5 when the current text has no
    3-gram; otherwise [max(0, 1 - min(avg, 1))], where [avg] is the sum,
    over the references that have a 3-gram, of
    [|current /\ reference| / max(|current|, |reference|)], divided by
    the number of all references.  So the novelty against no reference
    is 1, and the novelty of a text of at least three tokens against
    itself is 0. *)
Theorem calculate_novelty_score_formula :
  (forall (h : HashSeed) (self : NLPAnalyzer) (current_text : str)
          (reference_texts : list str),
      let ngrams text := extract_ngrams self text 3 in
      let current := ngrams current_text in
      let contributing :=
        filter (fun r => negb (unique_count (ngrams r) =? 0)%nat)
               reference_texts in
      let avg :=
        Rsum (map (fun r =>
                     INR (common_count current (ngrams r))
                     / INR (Nat.max (unique_count current)
                                    (unique_count (ngrams r))))
                  contributing)
        / INR (length reference_texts) in
      calculate_novelty_score h self current_text reference_texts 3
      = Ok match reference_texts with
           | [] => 1
           | _ :: _ =>
               if (unique_count current =? 0)%nat then 0.5
               else Rmax 0 (1 - Rmin avg 1)
           end)
  /\ (forall (h : HashSeed) (self : NLPAnalyzer) (x : str),
         calculate_novelty_score h self x [] 3 = Ok 1)
  /\ (forall (h : HashSeed) (self : NLPAnalyzer) (x : str),
         (3 <= length (split x))%nat ->
         calculate_novelty_score h self x [x] 3 = Ok 0).
Proof.
  split; [| split].
  - intros h self current_text reference_texts.
    apply calculate_novelty_score_eq.
  - reflexivity.
  - intros h self x Hx.
    rewrite calculate_novelty_score_eq. f_equal.
    unfold novelty_spec. cbv zeta. cbn [filter].
    set (ng := extract_ngrams self x 3).
    assert (Hng : unique_count ng <> 0%nat).
    { intros H0. apply unique_count_0 in H0.
      pose proof (extract_ngrams_length self x 3 Hx) as Hl.
      fold ng in Hl. rewrite H0 in Hl. simpl in Hl. lia. }
    assert (Hpos : 0 < INR (unique_count ng)) by (apply lt_0_INR; lia).
    apply Nat.eqb_neq in Hng. rewrite !Hng.
    cbn [negb map Rsum fold_right length]. fold ng.
    unfold overlap_ratio. rewrite common_count_self, Nat.max_id.
    replace ((INR (unique_count ng) / INR (unique_count ng) + 0) / INR 1)
      with 1 by (simpl; field; lra).
    minmax.
Qed.

(** The novelty of "a b c" against itself. *)
Lemma calculate_novelty_score_formula_witness :
  (3 <= length (split (lit "a b c")))%nat
  /\ calculate_novelty_score insertion_seed (NLPAnalyzer_init insertion_seed)
       (lit "a b c") [lit "a b c"] 3
     = Ok 0.
Proof.
  split.
  - vm_compute. lia.
  - apply (proj2 (proj2 calculate_novelty_score_formula)).
    vm_compute. lia.
Defined.

(** ** No exception, and every value in its range *)

(** C6.  On every string, the empty string and strings of white space
    included, every numeric extractor and the scorer return a value (no
    division meets a zero divisor, no logarithm leaves its domain), and
    the value is in its range: keyword densities, repetition, novelty,
    sentiment strength, complexity, the importance and its factors in
    [0, 1], entropy at least 0.  On the empty string each function
    returns its default.  [extract_keywords] and [extract_ngrams] return
    lists and contain no operation that can raise. *)
Theorem extractors_total_and_bounded (h : HashSeed)
  (self : EnhancedThoughtScorer) (text : str)
  (reference_texts : list str) (ngram_size : nat)
  (length_weight complexity_weight novelty_weight sentiment_weight
   entropy_weight : R)
  (existing_content : option (list str)) :
  (exists densities,
      calculate_keyword_density h (nlp self) text = Ok densities
      /\ Forall (fun kv => 0 <= snd kv <= 1) densities)
  /\ (exists r,
         calculate_repetition_score (nlp self) text = Ok r /\ 0 <= r <= 1)
  /\ (exists e, calculate_entropy (nlp self) text = Ok e /\ 0 <= e)
  /\ (exists v,
         calculate_novelty_score h (nlp self) text reference_texts ngram_size
         = Ok v
         /\ 0 <= v <= 1)
  /\ (exists label strength,
         analyze_sentiment_basic h (nlp self) text = Ok (label, strength)
         /\ 0 <= strength <= 1)
  /\ (exists c,
         calculate_complexity_score h (nlp self) text = Ok c /\ 0 <= c <= 1)
  /\ (exists importance factors,
         calculate_enhanced_importance h self text length_weight
           complexity_weight novelty_weight sentiment_weight entropy_weight
           existing_content
         = Ok (importance, factors)
         /\ 0 <= importance <= 1
         /\ Forall (fun kv => 0 <= snd kv <= 1) factors)
  /\ (extract_keywords h (nlp self) (lit "") 3 = []
      /\ calculate_keyword_density h (nlp self) (lit "") = Ok []
      /\ calculate_repetition_score (nlp self) (lit "") = Ok 0
      /\ calculate_entropy (nlp self) (lit "") = Ok 0
      /\ extract_ngrams (nlp self) (lit "") 2 = []
      /\ calculate_novelty_score h (nlp self) (lit "") reference_texts 3
         = Ok match reference_texts with [] => 1 | _ :: _ => 0.5 end
      /\ analyze_sentiment_basic h (nlp self) (lit "") = Ok (lit "neutral", 0.5)
      /\ calculate_complexity_score h (nlp self) (lit "") = Ok 0
      /\ calculate_enhanced_importance h self (lit "") length_weight
           complexity_weight novelty_weight sentiment_weight entropy_weight
           existing_content
         = Ok (0, [])).
Proof.
  repeat apply conj.
  - rewrite calculate_keyword_density_eq. eexists. split; [reflexivity |].
    cbv zeta. destruct (length (split text) =? 0)%nat eqn:E; [constructor |].
    apply Nat.eqb_neq in E. apply Forall_forall. intros kv Hkv.
    apply in_map_iff in Hkv. destruct Hkv as [k [<- _]]. cbn [snd].
    change (1 / INR (length (split text)))
      with (INR 1 / INR (length (split text))).
    apply ratio_bounds. lia.
  - rewrite calculate_repetition_score_eq. eexists. split; [reflexivity |].
    apply repetition_range.
  - rewrite calculate_entropy_eq. eexists. split; [reflexivity |].
    apply entropy_value_nonneg.
  - rewrite calculate_novelty_score_eq. eexists. split; [reflexivity |].
    apply novelty_spec_range.
  - rewrite analyze_sentiment_basic_eq.
    exists (fst (sentiment_spec text)), (snd (sentiment_spec text)).
    split; [now destruct (sentiment_spec text) | apply sentiment_spec_range].
  - rewrite calculate_complexity_score_eq. eexists. split; [reflexivity |].
    destruct text; [lra | apply complexity_spec_range].
  - destruct text as [| c t].
    + exists 0, []. repeat split; try lra. constructor.
    + rewrite calculate_enhanced_importance_eq.
      unfold importance_breakdown. cbv zeta.
      eexists. eexists. split; [reflexivity |].
      split; [apply clamp_range |].
      cbn [combine factor_names].
      repeat (apply Forall_cons || apply Forall_nil); cbn [snd].
      * apply length_factor_range.
      * apply complexity_spec_range.
      * destruct (reference_list existing_content); [lra | apply novelty_spec_range].
      * apply sentiment_factor_range.
      * apply entropy_factor_range.
      * apply clamp_range.
  - unfold extract_keywords. apply set_of_nil_iff. reflexivity.
  - reflexivity.
  - reflexivity.
  - reflexivity.
  - reflexivity.
  - rewrite calculate_novelty_score_eq. reflexivity.
  - rewrite analyze_sentiment_basic_eq. reflexivity.
  - reflexivity.
  - reflexivity.
Qed.

(** ** The pattern of [extract_keywords] *)

Lemma alpha_is_word (c : char) : is_ascii_alpha c = true -> is_word c = true.
Proof.
  destruct c as [a | |]; simpl; intros H; [| discriminate | discriminate].
  rewrite H, orb_true_r. reflexivity.
Qed.

Lemma alpha_not_backspace (c : char) :
  is_ascii_alpha c = true -> is_backspace c = false.
Proof.
  unfold is_backspace. destruct (char_eq_dec c backspace) as [-> | _];
    [discriminate | reflexivity].
Qed.

Lemma is_backspace_true (c : char) : is_backspace c = true <-> c = backspace.
Proof.
  unfold is_backspace. destruct (char_eq_dec c backspace); split; auto; discriminate.
Qed.

Lemma last_cons_default {A : Type} (l : list A) (a d : A) :
  last (a :: l) d = last l a.
Proof.
  revert a d. induction l as [| b l IH]; intros a d; [reflexivity |].
  change (last (a :: b :: l) d) with (last (b :: l) d).
  now rewrite (IH b d), (IH b a).
Qed.

Lemma char_before_cons (prev : option char) (c : char) (pre : str) :
  char_before prev (c :: pre) = char_before (Some c) pre.
Proof. apply last_cons_default. Qed.

(** The letters a string starts with. *)
Lemma alpha_prefix_split (s : str) :
  let m := alpha_prefix_length s in
  forallb is_ascii_alpha (firstn m s) = true
  /\ is_alpha_opt (hd_error (skipn m s)) = false
  /\ (m <= length s)%nat.
Proof.
  induction s as [| c s IH]; simpl; [repeat split; auto |].
  destruct (is_ascii_alpha c) eqn:E; simpl.
  - rewrite E. destruct IH as [H1 [H2 H3]]. repeat split; auto. lia.
  - repeat split; auto. lia.
Qed.

Lemma alpha_prefix_unique (w post : str) :
  forallb is_ascii_alpha w = true ->
  is_alpha_opt (hd_error post) = false ->
  alpha_prefix_length (w ++ post) = length w.
Proof.
  intros Hw Hpost. induction w as [| c w IH]; simpl.
  - destruct post as [| d post]; [reflexivity |]. simpl in *. now rewrite Hpost.
  - simpl in Hw. apply andb_true_iff in Hw. destruct Hw as [Hc Hw].
    rewrite Hc. f_equal. auto.
Qed.

(** What the greedy quantifier followed by U+0008 matches: all the
    letters ahead and the character U+0008 after them, when the letters
    are at least [n]; stopping earlier never succeeds, since a letter
    would stand where U+0008 is required. *)
Lemma match_run_spec (n : nat) (s : str) (taken : nat) :
  match_run n taken s
  = let m := alpha_prefix_length s in
    match hd_error (skipn m s) with
    | Some c =>
        if (n <=? taken + m)%nat && is_backspace c
        then Some (S (taken + m)) else None
    | None => None
    end.
Proof.
  revert taken. induction s as [| c s IH]; intros taken; [reflexivity |].
  cbn [match_run alpha_prefix_length].
  destruct (is_ascii_alpha c) eqn:Ec.
  - rewrite IH. cbv zeta. cbn [skipn].
    replace (S taken + alpha_prefix_length s)%nat
      with (taken + S (alpha_prefix_length s))%nat by lia.
    destruct (hd_error (skipn (alpha_prefix_length s) s)) as [d |].
    + destruct (_ && is_backspace d); [reflexivity |].
      now rewrite (alpha_not_backspace c Ec), andb_false_r.
    + now rewrite (alpha_not_backspace c Ec), andb_false_r.
  - cbv zeta. cbn [skipn hd_error]. now rewrite Nat.add_0_r.
Qed.

(** The pattern matches at a position exactly when, after a character
    that is no word character (or at the start), at least [n] letters
    stand there with U+0008 after them; the match is the letters with the
    U+0008. *)
Lemma match_at_spec (n : nat) (prev : option char) (s : str) (k : nat) :
  (1 <= n)%nat ->
  match_at n prev s = Some k
  <-> is_word_opt prev = false
      /\ k = S (alpha_prefix_length s)
      /\ (n <= alpha_prefix_length s)%nat
      /\ hd_error (skipn (alpha_prefix_length s) s) = Some backspace.
Proof.
  intros Hn. unfold match_at. rewrite match_run_spec. cbv zeta. cbn [Nat.add].
  set (m := alpha_prefix_length s).
  assert (Hhd : (1 <= m)%nat -> is_word_opt (hd_error s) = true).
  { subst m. destruct s as [| c s]; simpl; [lia |].
    destruct (is_ascii_alpha c) eqn:Ec; [intros _; now apply alpha_is_word | lia]. }
  unfold word_boundary.
  destruct (hd_error (skipn m s)) as [d |] eqn:Ed.
  - destruct (n <=? m)%nat eqn:E.
    + apply Nat.leb_le in E. rewrite Hhd by lia.
      destruct (is_backspace d) eqn:Eb.
      * apply is_backspace_true in Eb. subst d.
        destruct (is_word_opt prev); simpl.
        -- split; [discriminate | intros [H _]; discriminate].
        -- split; [intros [= <-]; auto | intros [_ [-> _]]; reflexivity].
      * simpl.
        assert (Hnone : (if xorb (is_word_opt prev) true then @None nat else None)
                        = None) by (destruct (xorb _ _); reflexivity).
        rewrite Hnone. split; [discriminate |].
        intros [_ [_ [_ H]]]. injection H as ->.
        unfold is_backspace in Eb.
        destruct (char_eq_dec backspace backspace); [discriminate | contradiction].
    + apply Nat.leb_gt in E. simpl.
      assert (Hnone : (if xorb (is_word_opt prev) (is_word_opt (hd_error s))
                       then @None nat else None) = None)
        by (destruct (xorb _ _); reflexivity).
      rewrite Hnone. split; [discriminate | intros [_ [_ [H _]]]; lia].
  - assert (Hnone : (if xorb (is_word_opt prev) (is_word_opt (hd_error s))
                     then @None nat else None) = None)
      by (destruct (xorb _ _); reflexivity).
    rewrite Hnone. split; [discriminate | intros [_ [_ [_ H]]]; discriminate].
Qed.

(** A match of [c :: s] starts at [c] or lies in [s]. *)
Lemma keyword_match_cons (n : nat) (prev : option char) (c : char)
  (s w : str) :
  keyword_match n prev (c :: s) w
  <-> (exists run post,
          c :: s = run ++ backspace :: post
          /\ w = run ++ [backspace]
          /\ (n <= length run)%nat
          /\ forallb is_ascii_alpha run = true
          /\ is_word_opt prev = false)
      \/ keyword_match n (Some c) s w.
Proof.
  split.
  - intros [pre [run [post [Hs [Hw [Hlen [Hrun Hpre]]]]]]].
    destruct pre as [| d pre].
    + left. exists run, post. simpl in Hs. auto.
    + right. simpl in Hs. injection Hs as <- ->.
      exists pre, run, post. rewrite char_before_cons in Hpre. auto.
  - intros [[run [post [Hs [Hw [Hlen [Hrun Hprev]]]]]]
           | [pre [run [post [Hs [Hw [Hlen [Hrun Hpre]]]]]]]].
    + exists [], run, post. simpl. auto.
    + exists (c :: pre), run, post. rewrite char_before_cons. subst s. auto.
Qed.

(** A match starts at the head of [s] exactly when the pattern matches
    there. *)
Lemma keyword_here_iff (n : nat) (prev : option char) (s w : str) :
  (1 <= n)%nat ->
  (exists run post,
      s = run ++ backspace :: post
      /\ w = run ++ [backspace]
      /\ (n <= length run)%nat
      /\ forallb is_ascii_alpha run = true
      /\ is_word_opt prev = false)
  <-> match_at n prev s = Some (length w) /\ w = firstn (length w) s.
Proof.
  intros Hn. rewrite (match_at_spec n prev s (length w) Hn). split.
  - intros [run [post [-> [-> [Hlen [Hrun Hprev]]]]]].
    assert (Hm : alpha_prefix_length (run ++ backspace :: post) = length run)
      by (apply alpha_prefix_unique; [exact Hrun | reflexivity]).
    rewrite Hm, length_app, Nat.add_1_r.
    rewrite skipn_app, Nat.sub_diag, skipn_all. cbn [app skipn hd_error].
    repeat split; auto.
    change (run ++ backspace :: post) with (run ++ [backspace] ++ post).
    rewrite app_assoc.
    rewrite <- (Nat.add_1_r (length run)).
    replace (length run + 1)%nat with (length (run ++ [backspace]))
      by (rewrite length_app; reflexivity).
    rewrite firstn_app, Nat.sub_diag, firstn_all. simpl. now rewrite app_nil_r.
  - intros [[Hprev [Hk [Hlen Hpost]]] Hw].
    set (m := alpha_prefix_length s) in *.
    destruct (alpha_prefix_split s) as [Hrun [_ Hle]]. fold m in Hrun, Hle.
    assert (Hs : s = firstn m s ++ backspace :: skipn (S m) s).
    { rewrite <- (firstn_skipn m s) at 1. f_equal.
      destruct (skipn m s) as [| d rest] eqn:E; [discriminate |].
      simpl in Hpost. injection Hpost as ->. f_equal.
      replace (S m) with (1 + m)%nat by lia.
      rewrite <- skipn_skipn, E. reflexivity. }
    exists (firstn m s), (skipn (S m) s).
    assert (Hlenrun : length (firstn m s) = m)
      by (rewrite length_firstn; lia).
    repeat split; auto.
    + rewrite Hw, Hk. rewrite Hs at 1.
      change (firstn m s ++ backspace :: skipn (S m) s)
        with (firstn m s ++ [backspace] ++ skipn (S m) s).
      rewrite app_assoc.
      assert (Hl : S m = length (firstn m s ++ [backspace]))
        by (rewrite length_app, Hlenrun; simpl; lia).
      rewrite Hl at 1. rewrite firstn_app, Nat.sub_diag, firstn_all. simpl.
      now rewrite app_nil_r.
    + rewrite Hlenrun. exact Hlen.
Qed.

(** Every string [findall] returns is a match, for any [n]. *)
Lemma findall_from_sound (n : nat) (w : str) :
  forall (s : str) (prev : option char) (skip : nat),
    In w (findall_from n prev s skip) ->
    exists run,
      w = run ++ [backspace]
      /\ (n <= length run)%nat
      /\ forallb is_ascii_alpha run = true
      /\ exists pre post, s = pre ++ w ++ post.
Proof.
  induction s as [| c s IH]; intros prev skip Hin; [destruct Hin |].
  assert (Hrec : forall k,
             In w (findall_from n (Some c) s k) ->
             exists run,
               w = run ++ [backspace]
               /\ (n <= length run)%nat
               /\ forallb is_ascii_alpha run = true
               /\ exists pre post, c :: s = pre ++ w ++ post).
  { intros k Hk. destruct (IH _ _ Hk) as [run [H1 [H2 [H3 [pre [post H4]]]]]].
    exists run. repeat split; auto. exists (c :: pre), post. now rewrite H4. }
  cbn [findall_from] in Hin. destruct skip as [| k]; [| now apply (Hrec k)].
  destruct (match_at n prev (c :: s)) as [[| k] |] eqn:Em;
    [now apply (Hrec 0%nat) | | now apply (Hrec 0%nat)].
  destruct Hin as [<- | Hin]; [| now apply (Hrec k)].
  unfold match_at in Em.
  destruct (word_boundary prev (hd_error (c :: s))); [| discriminate].
  rewrite match_run_spec in Em. cbv zeta in Em. cbn [Nat.add] in Em.
  set (m := alpha_prefix_length (c :: s)) in *.
  destruct (hd_error (skipn m (c :: s))) as [d |] eqn:Ed; [| discriminate].
  destruct (n <=? m)%nat eqn:En; [| discriminate]. apply Nat.leb_le in En.
  destruct (is_backspace d) eqn:Eb; [| discriminate].
  apply is_backspace_true in Eb. subst d. injection Em as <-.
  destruct (alpha_prefix_split (c :: s)) as [Hrun [_ Hle]]. fold m in Hrun, Hle.
  assert (Hfirst : firstn (S m) (c :: s) = firstn m (c :: s) ++ [backspace]).
  { rewrite <- (firstn_skipn m (c :: s)) at 1.
    destruct (skipn m (c :: s)) as [| d rest] eqn:E; [discriminate |].
    simpl in Ed. injection Ed as ->.
    assert (Hl : length (firstn m (c :: s)) = m) by (rewrite length_firstn; lia).
    replace (S m) with (length (firstn m (c :: s)) + 1)%nat by lia.
    rewrite firstn_app_2. reflexivity. }
  exists (firstn m (c :: s)). repeat split; auto.
  - rewrite length_firstn. lia.
  - exists [], (skipn (S m) (c :: s)). simpl app at 1.
    now rewrite firstn_skipn.
Qed.

(** For [1 <= n], [findall] returns exactly the matches of the pattern.
    While the scan is inside a match ([skip] not zero) the characters
    still to pass are letters after a word character, then U+0008. *)
Lemma findall_from_spec (n : nat) (w : str) :
  (1 <= n)%nat ->
  forall (s : str) (prev : option char) (skip : nat),
    ((0 < skip)%nat ->
     is_word_opt prev = true /\ skip = S (alpha_prefix_length s)) ->
    In w (findall_from n prev s skip) <-> keyword_match n prev s w.
Proof.
  intros Hn. induction s as [| c s IH]; intros prev skip Hinv.
  - simpl. split; [intros [] |].
    intros [pre [run [post [Hs _]]]].
    symmetry in Hs. apply app_eq_nil in Hs. destruct Hs as [_ Hs].
    apply app_eq_nil in Hs. destruct Hs as [_ Hs]. discriminate.
  - rewrite keyword_match_cons, (keyword_here_iff n prev (c :: s) w Hn).
    assert (Hnext : forall k,
               S k = S (alpha_prefix_length (c :: s)) ->
               (0 < k)%nat ->
               is_word_opt (Some c) = true /\ k = S (alpha_prefix_length s)).
    { intros k Hk Hk0. simpl in Hk. simpl.
      destruct (is_ascii_alpha c) eqn:Ec; [| lia].
      split; [now apply alpha_is_word | lia]. }
    destruct skip as [| k]; cbn [findall_from].
    + destruct (match_at n prev (c :: s)) as [[| k] |] eqn:Em.
      * apply (match_at_spec n prev (c :: s) 0 Hn) in Em.
        destruct Em as [_ [Hk _]]. discriminate.
      * pose proof Em as Em2.
        apply (match_at_spec n prev (c :: s) (S k) Hn) in Em2.
        destruct Em2 as [_ [Hk [Hlen Hpost]]].
        cbn [In]. rewrite (IH (Some c) k (Hnext k Hk)).
        split.
        -- intros [<- | H]; [| now right]. left.
           pose proof (alpha_prefix_split (c :: s)) as [_ [_ Hle]].
           assert (Hlt : (S k <= length (c :: s))%nat).
           { apply Nat.succ_inj in Hk. rewrite Hk.
             destruct (Nat.eq_dec (alpha_prefix_length (c :: s)) (length (c :: s)))
               as [Heq | Hne]; [| lia].
             rewrite Heq, skipn_all in Hpost. discriminate. }
           rewrite length_firstn, Nat.min_l by exact Hlt.
           split; reflexivity.
        -- intros [[Hm Hw] | H]; [| now right]. left.
           injection Hm as Hm. rewrite Hm. symmetry. exact Hw.
      * rewrite (IH (Some c) 0%nat) by lia.
        split; [now right |]. intros [[Hm _] | H]; [discriminate | exact H].
    + destruct (Hinv (Nat.lt_0_succ k)) as [Hprev Hk].
      rewrite (IH (Some c) k (Hnext k Hk)).
      split; [now right |]. intros [[Hm _] | H]; [| exact H].
      apply (match_at_spec n prev (c :: s) (length w) Hn) in Hm.
      destruct Hm as [Hm _]. congruence.
Qed.

Lemma findall_spec (n : nat) (s w : str) :
  (1 <= n)%nat -> In w (findall n s) <-> keyword_match n None s w.
Proof.
  intros Hn. unfold findall. apply findall_from_spec; [exact Hn | lia].
Qed.

(** Lower-casing creates no U+0008. *)
Lemma lower_char_backspace (c : char) :
  In backspace (lower_char c) -> c = backspace.
Proof.
  destruct c as [a | |].
  - destruct a as [[] [] [] [] [] [] [] []]; vm_compute;
      intros [H | []]; first [discriminate H | exact H].
  - intros [H | [H | []]]; discriminate.
  - intros [H | []]; discriminate.
Qed.

Lemma lower_backspace (s : str) : In backspace (lower s) -> In backspace s.
Proof.
  unfold lower. rewrite in_flat_map. intros [c [Hc Hin]].
  apply lower_char_backspace in Hin. now subst c.
Qed.

(** Without U+0008 in the string nothing matches. *)
Lemma findall_no_backspace (n : nat) (s : str) :
  ~ In backspace s -> findall n s = [].
Proof.
  intros Hs. destruct (findall n s) as [| w ws] eqn:E; [reflexivity |].
  exfalso. apply Hs.
  destruct (findall_from_sound n w s None 0) as [run [Hw [_ [_ [pre [post H]]]]]].
  { unfold findall in E. rewrite E. now left. }
  rewrite H, Hw. rewrite !in_app_iff. right. left. right. now left.
Qed.

Lemma extract_keywords_In_any (h : HashSeed) (self : NLPAnalyzer)
  (text : str) (n : nat) (w : str) :
  In w (extract_keywords h self text n)
  <-> In w (findall n (lower text)) /\ mem w (stop_words self) = false.
Proof.
  unfold extract_keywords. rewrite set_of_In, filter_In, negb_true_iff.
  reflexivity.
Qed.

Lemma extract_keywords_no_backspace (h : HashSeed) (self : NLPAnalyzer)
  (text : str) (n : nat) :
  ~ In backspace text -> extract_keywords h self text n = [].
Proof.
  intros Ht. unfold extract_keywords. apply set_of_nil_iff.
  rewrite findall_no_backspace; [reflexivity |].
  intros H. apply Ht. now apply lower_backspace.
Qed.

(** C2 at "the cat sat".  The lower-cased text has the maximal
    alphabetic runs [cat] and [sat], three letters each and no stop words,
    yet [extract_keywords] returns the empty set, for every stop-word set
    and every order of the set: the pattern ends in the character U+0008
    (the second ['\b'] stands in a string literal that is not raw), and no
    U+0008 follows a run of this text. *)
Theorem extract_keywords_plain_text_empty (h : HashSeed) (self : NLPAnalyzer) :
  let text := lit "the cat sat" in
  maximal_alpha_run 3 (lower text) (lit "cat")
  /\ maximal_alpha_run 3 (lower text) (lit "sat")
  /\ mem (lit "cat") (stop_words_literal) = false
  /\ mem (lit "sat") (stop_words_literal) = false
  /\ findall 3 (lower text) = []
  /\ extract_keywords h self text 3 = [].
Proof.
  cbv zeta. split; [| split; [| split; [| split; [| split]]]].
  - exists (lit "the "), (lit " sat"). repeat split. simpl. lia.
  - exists (lit "the cat "), []. repeat split. simpl. lia.
  - reflexivity.
  - reflexivity.
  - reflexivity.
  - unfold extract_keywords. apply set_of_nil_iff. reflexivity.
Qed.

(** ** Keyword density *)

(** C3 at the text [cat], U+0008, space, [cat], U+0008, space, [dog].
    Its three whitespace tokens are [cat]+U+0008 twice and [dog]; the
    keyword [cat]+U+0008 occurs twice among them, and its density is one
    third: the keywords are counted after [extract_keywords] has made a
    set of them. *)
Theorem calculate_keyword_density_counts_keyword_once (h : HashSeed) :
  let keyword := lit "cat" ++ [backspace] in
  let text := keyword ++ lit " " ++ keyword ++ lit " dog" in
  split text = [keyword; keyword; lit "dog"]
  /\ findall 3 (lower text) = [keyword; keyword]
  /\ count_occ str_eq_dec (split text) keyword = 2%nat
  /\ length (split text) = 3%nat
  /\ exists densities,
       calculate_keyword_density h (NLPAnalyzer_init h) text = Ok densities
       /\ dict_get keyword densities = Some (1 / 3).
Proof.
  cbv zeta.
  split; [reflexivity | split; [reflexivity | split; [reflexivity |
    split; [reflexivity |]]]].
  rewrite calculate_keyword_density_eq. cbv zeta.
  set (text := (lit "cat" ++ [backspace]) ++ lit " "
               ++ (lit "cat" ++ [backspace]) ++ lit " dog").
  change (length (split text)) with 3%nat.
  cbn [Nat.eqb].
  eexists. split; [reflexivity |].
  replace (INR 3) with 3 by (simpl; ring).
  apply dict_get_map_const.
  apply extract_keywords_In_any. split.
  - vm_compute. auto.
  - cbn [stop_words NLPAnalyzer_init]. rewrite mem_set_of. reflexivity.
Qed.

(** * Further properties of the extractors *)

(** ** Tokens *)

Lemma forallb_rev {A : Type} (f : A -> bool) (l : list A) :
  forallb f (rev l) = forallb f l.
Proof.
  induction l as [| x l IH]; [reflexivity |].
  simpl. rewrite forallb_app, IH. simpl.
  rewrite andb_true_r. apply andb_comm.
Qed.

(** A token: a non-empty string without white space. *)
Lemma split_ws_from_tokens (s cur : str) :
  forallb (fun c => negb (isspace c)) cur = true ->
  Forall (fun t => t <> [] /\ forallb (fun c => negb (isspace c)) t = true)
         (split_ws_from cur s).
Proof.
  revert cur. induction s as [| c s IH]; intros cur Hcur; simpl.
  - destruct cur as [| d cur]; constructor; [| constructor].
    split.
    + intros H. apply (f_equal (@length char)) in H.
      rewrite length_rev in H. discriminate.
    + rewrite forallb_rev. exact Hcur.
  - destruct (isspace c) eqn:Ec.
    + destruct cur as [| d cur]; [apply IH; reflexivity |].
      constructor; [| apply IH; reflexivity].
      split.
      * intros H. apply (f_equal (@length char)) in H.
        rewrite length_rev in H. discriminate.
      * rewrite forallb_rev. exact Hcur.
    + apply IH. simpl. now rewrite Ec.
Qed.

Lemma split_tokens (s : str) :
  Forall (fun t => t <> [] /\ forallb (fun c => negb (isspace c)) t = true)
         (split s).
Proof. apply split_ws_from_tokens. reflexivity. Qed.

(** Joining tokens with single spaces and splitting again gives the
    tokens back. *)
Lemma split_join (ws : list str) :
  Forall (fun t => t <> [] /\ forallb (fun c => negb (isspace c)) t = true) ws ->
  split (join (lit " ") ws) = ws.
Proof.
  unfold split. induction 1 as [| w ws [Hne Hw] Hws IH]; [reflexivity |].
  destruct ws as [| w' ws].
  - simpl. rewrite <- (app_nil_r w) at 1.
    rewrite (split_ws_from_app_token w [] [] Hw). rewrite app_nil_r. simpl.
    destruct (rev w) eqn:E.
    + apply (f_equal (@rev char)) in E. rewrite rev_involutive in E.
      simpl in E. contradiction.
    + rewrite <- E. now rewrite rev_involutive.
  - change (join (lit " ") (w :: w' :: ws))
      with (w ++ (Latin1 " ") :: join (lit " ") (w' :: ws)).
    rewrite (split_ws_from_app_token w _ [] Hw). rewrite app_nil_r.
    cbn [split_ws_from]. change (isspace (Latin1 " ")) with true. cbv iota.
    destruct (rev w) eqn:E.
    + apply (f_equal (@rev char)) in E. rewrite rev_involutive in E.
      simpl in E. contradiction.
    + rewrite <- E, rev_involutive. now rewrite IH.
Qed.

Lemma Forall_window {A : Type} (P : A -> Prop) (l : list A) (i n : nat) :
  Forall P l -> Forall P (firstn n (skipn i l)).
Proof.
  intros H. apply Forall_forall. intros x Hx.
  rewrite Forall_forall in H. apply H.
  rewrite <- (firstn_skipn i l). apply in_or_app. right.
  rewrite <- (firstn_skipn n (skipn i l)). apply in_or_app. now left.
Qed.

(** ** N-grams *)

(** X1.  [extract_ngrams] returns [len(words) - n + 1] n-grams when the
    lower-cased text has at least [n] tokens and none otherwise, and the
    n-gram at index [i] splits back into the tokens [i .. i + n - 1] of
    the lower-cased text. *)
Theorem extract_ngrams_windows (self : NLPAnalyzer) (text : str) (n : nat) :
  let words := split (lower text) in
  let ngrams := extract_ngrams self text n in
  length ngrams
  = (if (length words <? n)%nat then 0 else length words - n + 1)%nat
  /\ forall i,
       (i < length ngrams)%nat ->
       split (nth i ngrams []) = firstn n (skipn i words).
Proof.
  cbv zeta. unfold extract_ngrams. cbv zeta.
  set (words := split (lower text)).
  destruct (length words <? n)%nat eqn:E.
  - split; [reflexivity |]. simpl. intros i Hi. lia.
  - rewrite length_map, length_seq. split; [reflexivity |].
    intros i Hi.
    rewrite (nth_indep _ [] (join (lit " ") (firstn n (skipn 0 words))))
      by (rewrite length_map, length_seq; exact Hi).
    change (join (lit " ") (firstn n (skipn 0 words)))
      with ((fun i => join (lit " ") (firstn n (skipn i words))) 0%nat).
    rewrite map_nth, seq_nth by exact Hi. cbn [Nat.add].
    apply split_join, Forall_window, split_tokens.
Qed.

(** ** Repetition *)

Lemma nodup_length_NoDup (l : list str) :
  length (nodup str_eq_dec l) = length l <-> NoDup l.
Proof.
  split.
  - induction l as [| x l IH]; intros H; [constructor |].
    simpl in H. destruct (in_dec str_eq_dec x l) as [Hin | Hin].
    + pose proof (unique_count_le l) as Hle. unfold unique_count in Hle. lia.
    + simpl in H. constructor; [exact Hin | apply IH; lia].
  - intros H. now rewrite nodup_fixed_point.
Qed.

(** X2.  The repetition score is 0 exactly when the lower-cased tokens of
    the text are pairwise distinct. *)
Theorem calculate_repetition_score_zero_iff (self : NLPAnalyzer) (text : str) :
  exists r,
    calculate_repetition_score self text = Ok r
    /\ (r = 0 <-> NoDup (split (lower text))).
Proof.
  rewrite calculate_repetition_score_eq. eexists. split; [reflexivity |].
  cbv zeta. set (words := split (lower text)).
  destruct (length words <=? 1)%nat eqn:E.
  - apply Nat.leb_le in E. split; [| reflexivity]. intros _.
    destruct words as [| w [| w' ws]]; simpl in E; try lia.
    + constructor.
    + repeat constructor. intros [].
  - apply Nat.leb_gt in E.
    assert (Hpos : 0 < INR (length words)) by (apply lt_0_INR; lia).
    pose proof (ratio_bounds _ _ (unique_count_le words)) as Hb.
    rewrite <- nodup_length_NoDup. fold (unique_count words).
    rewrite Rmin_left by lra.
    split.
    + intros H. apply INR_eq.
      apply (Rmult_eq_reg_r (/ INR (length words))).
      * rewrite Rinv_r by lra. unfold Rdiv in H. lra.
      * apply Rinv_neq_0_compat. lra.
    + intros ->. unfold Rdiv. rewrite Rinv_r by lra. lra.
Qed.

(** X3.  The repetition score never reaches 1: a text of [t >= 1] tokens
    scores at most [1 - 1/t]. *)
Theorem calculate_repetition_score_below_one (self : NLPAnalyzer) (text : str) :
  exists r,
    calculate_repetition_score self text = Ok r
    /\ r < 1
    /\ r * INR (length (split (lower text)))
       <= INR (length (split (lower text)) - 1).
Proof.
  rewrite calculate_repetition_score_eq. eexists. split; [reflexivity |].
  cbv zeta. set (words := split (lower text)).
  destruct (length words <=? 1)%nat eqn:E.
  - split; [lra |]. rewrite Rmult_0_l. apply pos_INR.
  - apply Nat.leb_gt in E.
    assert (Hpos : 0 < INR (length words)) by (apply lt_0_INR; lia).
    assert (Hu : (1 <= unique_count words)%nat).
    { destruct (unique_count words) eqn:Eu; [| lia].
      apply unique_count_0 in Eu. rewrite Eu in E. simpl in E. lia. }
    pose proof (ratio_bounds _ _ (unique_count_le words)) as Hb.
    apply le_INR in Hu. simpl (INR 1) in Hu.
    assert (Hq : INR (unique_count words) / INR (length words) * INR (length words)
                 = INR (unique_count words)) by (field; lra).
    assert (Hq0 : 0 < INR (unique_count words) / INR (length words)).
    { apply Rdiv_lt_0_compat; lra. }
    rewrite Rmin_left by lra.
    split; [lra |].
    rewrite minus_INR by lia. simpl (INR 1). nra.
Qed.

(** ** Letter case *)

Lemma lower_char_idem (c : char) : lower (lower_char c) = lower_char c.
Proof.
  destruct c as [a | |]; [| reflexivity | reflexivity].
  destruct a as [[] [] [] [] [] [] [] []]; reflexivity.
Qed.

Lemma lower_idem (s : str) : lower (lower s) = lower s.
Proof.
  induction s as [| c s IH]; [reflexivity |].
  now rewrite lower_cons, lower_app, lower_char_idem, IH.
Qed.

Lemma filter_map_swap {A B : Type} (p : B -> bool) (g : A -> B) (l : list A) :
  filter p (map g l) = map g (filter (fun x => p (g x)) l).
Proof.
  induction l as [| x l IH]; simpl; [reflexivity |].
  destruct (p (g x)); simpl; now rewrite IH.
Qed.

Lemma extract_ngrams_lower (self : NLPAnalyzer) (text : str) (n : nat) :
  extract_ngrams self (lower text) n = extract_ngrams self text n.
Proof.
  unfold extract_ngrams. now rewrite lower_idem.
Qed.

Lemma novelty_spec_lower (self : NLPAnalyzer) (text : str)
  (refs : list str) (n : nat) :
  novelty_spec self (lower text) (map lower refs) n
  = novelty_spec self text refs n.
Proof.
  unfold novelty_spec. cbv zeta.
  destruct refs as [| r rs]; [reflexivity |].
  change (map lower (r :: rs)) with (lower r :: map lower rs).
  rewrite extract_ngrams_lower.
  destruct (_ =? 0)%nat; [reflexivity |].
  change (lower r :: map lower rs) with (map lower (r :: rs)).
  rewrite length_map, filter_map_swap, map_map.
  rewrite (filter_ext
             (fun x => negb (unique_count (extract_ngrams self (lower x) n) =? 0)%nat)
             (fun x => negb (unique_count (extract_ngrams self x n) =? 0)%nat))
    by (intros x; now rewrite extract_ngrams_lower).
  rewrite (map_ext
             (fun x => overlap_ratio (extract_ngrams self text n)
                         (extract_ngrams self (lower x) n))
             (fun x => overlap_ratio (extract_ngrams self text n)
                         (extract_ngrams self x n)))
    by (intros x; now rewrite extract_ngrams_lower).
  reflexivity.
Qed.

(** X4.  Keywords, keyword density, repetition, n-grams, novelty and
    sentiment do not depend on letter case: lower-casing the text (and
    the reference texts) first changes none of them. *)
Theorem extractors_ignore_case (h : HashSeed) (self : NLPAnalyzer)
  (text : str) (reference_texts : list str) (min_length n : nat) :
  extract_keywords h self (lower text) min_length
  = extract_keywords h self text min_length
  /\ calculate_keyword_density h self (lower text)
     = calculate_keyword_density h self text
  /\ calculate_repetition_score self (lower text)
     = calculate_repetition_score self text
  /\ extract_ngrams self (lower text) n = extract_ngrams self text n
  /\ calculate_novelty_score h self (lower text) (map lower reference_texts) n
     = calculate_novelty_score h self text reference_texts n
  /\ analyze_sentiment_basic h self (lower text)
     = analyze_sentiment_basic h self text.
Proof.
  repeat apply conj.
  - unfold extract_keywords. now rewrite lower_idem.
  - unfold calculate_keyword_density, extract_keywords.
    now rewrite lower_idem, split_lower_length.
  - unfold calculate_repetition_score. now rewrite lower_idem.
  - apply extract_ngrams_lower.
  - rewrite !calculate_novelty_score_eq. now rewrite novelty_spec_lower.
  - unfold analyze_sentiment_basic. now rewrite lower_idem.
Qed.

(** ** Sentiment thresholds *)

Lemma common_count_same_elements (l1 l2 s : list str) :
  (forall w, In w l1 <-> In w l2) ->
  common_count l1 s = common_count l2 s.
Proof.
  intros H. unfold common_count. apply filter_length_perm.
  apply NoDup_Permutation; try apply NoDup_nodup.
  intros w. rewrite !nodup_In. apply H.
Qed.

(** X5.  With [p] and [n] the numbers of distinct positive and negative
    words among the lower-cased tokens, the label is positive exactly when
    [2 p > 3 n], negative exactly when [3 p < 2 n] and neutral otherwise;
    the strength of a positive text is [p / (p + n)], that of a negative
    text is computed as [1 - p / (p + n)]. *)
Theorem analyze_sentiment_basic_thresholds (h : HashSeed)
  (self : NLPAnalyzer) (text : str) :
  let tokens := split (lower text) in
  let p := common_count tokens positive_words_literal in
  let n := common_count tokens negative_words_literal in
  analyze_sentiment_basic h self text
  = Ok (if (3 * n <? 2 * p)%nat then (lit "positive", INR p / INR (p + n))
        else if (3 * p <? 2 * n)%nat
             then (lit "negative", 1 - INR p / INR (p + n))
             else (lit "neutral", 0.5)).
Proof.
  cbv zeta. rewrite analyze_sentiment_basic_eq. f_equal.
  unfold sentiment_spec. cbv zeta.
  set (p := common_count _ positive_words_literal).
  set (n := common_count _ negative_words_literal).
  destruct (p + n =? 0)%nat eqn:E0.
  - apply Nat.eqb_eq in E0.
    assert (Hp : p = 0%nat) by lia. assert (Hn : n = 0%nat) by lia.
    rewrite Hp, Hn. reflexivity.
  - apply Nat.eqb_neq in E0.
    assert (Hpos : 0 < INR (p + n)) by (apply lt_0_INR; lia).
    assert (Hsum : INR (p + n) = INR p + INR n) by apply plus_INR.
    assert (Hs : INR p / INR (p + n) * INR (p + n) = INR p) by (field; lra).
    set (s := INR p / INR (p + n)) in *.
    destruct (Rgt_dec s 0.6) as [Hgt | Hngt].
    + assert (H : (3 * n < 2 * p)%nat).
      { apply INR_lt. rewrite !mult_INR. simpl (INR 3). simpl (INR 2). nra. }
      apply Nat.ltb_lt in H. now rewrite H.
    + assert (H : ~ (3 * n < 2 * p)%nat).
      { intros H. apply lt_INR in H. rewrite !mult_INR in H.
        simpl (INR 3) in H. simpl (INR 2) in H. apply Hngt. nra. }
      apply Nat.ltb_nlt in H. rewrite H.
      destruct (Rlt_dec s 0.4) as [Hlt | Hnlt].
      * assert (H2 : (3 * p < 2 * n)%nat).
        { apply INR_lt. rewrite !mult_INR. simpl (INR 3). simpl (INR 2). nra. }
        apply Nat.ltb_lt in H2. now rewrite H2.
      * assert (H2 : ~ (3 * p < 2 * n)%nat).
        { intros H2. apply lt_INR in H2. rewrite !mult_INR in H2.
          simpl (INR 3) in H2. simpl (INR 2) in H2. apply Hnlt. nra. }
        apply Nat.ltb_nlt in H2. now rewrite H2.
Qed.

(** X6.  The sentiment strength is exactly 0.5 with the label neutral and
    above 0.6 (at most 1) with the labels positive and negative; no other
    label is returned. *)
Theorem analyze_sentiment_basic_strength (h : HashSeed)
  (self : NLPAnalyzer) (text : str) :
  exists label strength,
    analyze_sentiment_basic h self text = Ok (label, strength)
    /\ (label = lit "neutral" /\ strength = 0.5
        \/ (label = lit "positive" \/ label = lit "negative")
           /\ 0.6 < strength <= 1).
Proof.
  rewrite analyze_sentiment_basic_eq. unfold sentiment_spec. cbv zeta.
  set (p := common_count _ positive_words_literal).
  set (n := common_count _ negative_words_literal).
  destruct (p + n =? 0)%nat; [eexists; eexists; split; [reflexivity | now left] |].
  assert (Hs : 0 <= INR p / INR (p + n) <= 1) by (apply ratio_bounds; lia).
  destruct (Rgt_dec _ _) as [Hgt | _].
  - eexists. eexists. split; [reflexivity |]. right. split; [now left | lra].
  - destruct (Rlt_dec _ _) as [Hlt | _].
    + eexists. eexists. split; [reflexivity |]. right. split; [now right | lra].
    + eexists. eexists. split; [reflexivity | now left].
Qed.

(** X7.  Sentiment depends only on the set of lower-cased tokens: two
    texts with the same tokens, in any order and with any repetitions,
    get the same label and strength. *)
Theorem analyze_sentiment_basic_token_set (h : HashSeed) (self : NLPAnalyzer)
  (text1 text2 : str) :
  (forall w, In w (split (lower text1)) <-> In w (split (lower text2))) ->
  analyze_sentiment_basic h self text1 = analyze_sentiment_basic h self text2.
Proof.
  intros H. rewrite !analyze_sentiment_basic_eq. unfold sentiment_spec.
  cbv zeta.
  rewrite (common_count_same_elements _ _ positive_words_literal H).
  rewrite (common_count_same_elements _ _ negative_words_literal H).
  reflexivity.
Qed.

(** "Good good BAD" and "bad good" have the same tokens. *)
Lemma analyze_sentiment_basic_token_set_witness :
  (forall w,
      In w (split (lower (lit "Good good BAD")))
      <-> In w (split (lower (lit "bad good"))))
  /\ analyze_sentiment_basic insertion_seed (NLPAnalyzer_init insertion_seed)
       (lit "Good good BAD")
     = analyze_sentiment_basic insertion_seed (NLPAnalyzer_init insertion_seed)
         (lit "bad good").
Proof.
  assert (H : forall w,
             In w (split (lower (lit "Good good BAD")))
             <-> In w (split (lower (lit "bad good")))).
  { intros w. simpl. tauto. }
  split; [exact H |].
  apply (analyze_sentiment_basic_token_set insertion_seed
           (NLPAnalyzer_init insertion_seed) _ _ H).
Defined.

(** ** Entropy bounds *)

Lemma Rsum_map_plus {A : Type} (f g : A -> R) (l : list A) :
  Rsum (map (fun x => f x + g x) l) = Rsum (map f l) + Rsum (map g l).
Proof.
  induction l as [| x l IH]; simpl; [lra |].
  fold (Rsum (map (fun x => f x + g x) l)).
  fold (Rsum (map f l)). fold (Rsum (map g l)). lra.
Qed.

Lemma Rsum_map_scal {A : Type} (k : R) (f : A -> R) (l : list A) :
  Rsum (map (fun x => f x * k) l) = Rsum (map f l) * k.
Proof.
  induction l as [| x l IH]; simpl; [lra |].
  fold (Rsum (map (fun x => f x * k) l)). fold (Rsum (map f l)). lra.
Qed.

Lemma Rsum_map_const {A : Type} (k : R) (l : list A) :
  Rsum (map (fun _ => k) l) = INR (length l) * k.
Proof.
  induction l as [| x l IH]; [simpl; lra |].
  cbn [map Rsum fold_right length]. fold (Rsum (map (fun _ : A => k) l)).
  rewrite IH, S_INR. lra.
Qed.

Lemma Rsum_map_le {A : Type} (f g : A -> R) (l : list A) :
  (forall x, In x l -> f x <= g x) ->
  Rsum (map f l) <= Rsum (map g l).
Proof.
  induction l as [| x l IH]; intros H; simpl; [lra |].
  fold (Rsum (map f l)). fold (Rsum (map g l)).
  pose proof (H x (or_introl eq_refl)).
  assert (Rsum (map f l) <= Rsum (map g l)) by (apply IH; intros; apply H; now right).
  lra.
Qed.

Lemma Rsum_map_lt {A : Type} (f g : A -> R) (l : list A) :
  l <> [] ->
  (forall x, In x l -> f x < g x) ->
  Rsum (map f l) < Rsum (map g l).
Proof.
  intros Hne H. destruct l as [| x l]; [contradiction |]. simpl.
  fold (Rsum (map f l)). fold (Rsum (map g l)).
  pose proof (H x (or_introl eq_refl)).
  assert (Rsum (map f l) <= Rsum (map g l)).
  { apply Rsum_map_le. intros y Hy. left. apply H. now right. }
  lra.
Qed.

Lemma Rsum_map_ext_in {A : Type} (f g : A -> R) (l : list A) :
  (forall x, In x l -> f x = g x) ->
  Rsum (map f l) = Rsum (map g l).
Proof.
  intros H. f_equal. now apply map_ext_in.
Qed.

(** The characters of a list without duplicates that are equal to [x]
    number one when [x] is in the list. *)
Lemma Rsum_indicator (x : char) (D : list char) :
  NoDup D -> In x D ->
  Rsum (map (fun c => if char_eq_dec x c then 1 else 0) D) = 1.
Proof.
  induction 1 as [| d D Hd Hnd IH]; intros Hin; [destruct Hin |].
  simpl. fold (Rsum (map (fun c => if char_eq_dec x c then 1 else 0) D)).
  destruct (char_eq_dec x d) as [-> | Hne].
  - rewrite (Rsum_map_ext_in _ (fun _ => 0)).
    + rewrite Rsum_map_const. lra.
    + intros c Hc. destruct (char_eq_dec d c) as [-> | _]; [contradiction | reflexivity].
  - destruct Hin as [Heq | Hin]; [congruence |]. rewrite IH by exact Hin. lra.
Qed.

(** The counts of the distinct characters add up to the length. *)
Lemma Rsum_count_occ (l D : list char) :
  NoDup D -> (forall x, In x l -> In x D) ->
  Rsum (map (fun c => INR (count_occ char_eq_dec l c)) D) = INR (length l).
Proof.
  intros Hnd. induction l as [| x l IH]; intros Hin.
  - simpl. rewrite Rsum_map_const. lra.
  - rewrite (Rsum_map_ext_in _
               (fun c => (if char_eq_dec x c then 1 else 0)
                         + INR (count_occ char_eq_dec l c))).
    + rewrite Rsum_map_plus, Rsum_indicator, IH; auto.
      * cbn [length]. rewrite S_INR. lra.
      * intros y Hy. apply Hin. now right.
      * apply Hin. now left.
    + intros c _. simpl. destruct (char_eq_dec x c); [rewrite S_INR |]; lra.
Qed.

Lemma ln_le_minus_1 (y : R) : 0 < y -> ln y <= y - 1.
Proof.
  intros Hy. pose proof (exp_ineq1_le (y - 1)) as H.
  replace (1 + (y - 1)) with y in H by lra.
  destruct H as [H | H].
  - left. rewrite <- (ln_exp (y - 1)). now apply ln_increasing.
  - right. rewrite H at 1. apply ln_exp.
Qed.

Lemma ln_neg (x : R) : 0 < x -> x < 1 -> ln x < 0.
Proof.
  intros H0 H1. rewrite <- ln_1. now apply ln_increasing.
Qed.

Section EntropyOf.

Variable text : str.

Let s : str := lower text.
Let D : list char := nodup char_eq_dec s.
Let p (c : char) : R := INR (count_occ char_eq_dec s c) / INR (length s).

Lemma entropy_spec_unfold :
  entropy_spec text = - Rsum (map (fun c => p c * log2r (p c)) D).
Proof. reflexivity. Qed.

Lemma frequency_pos (c : char) : In c D -> 0 < p c.
Proof.
  intros Hc. apply nodup_In in Hc.
  assert (H1 : (1 <= count_occ char_eq_dec s c)%nat) by now apply count_occ_In.
  pose proof (count_occ_bound char_eq_dec c s) as H2.
  apply Rdiv_lt_0_compat; apply lt_0_INR; lia.
Qed.

Lemma frequency_sum : s <> [] -> Rsum (map p D) = 1.
Proof.
  intros Hs. unfold p, Rdiv. rewrite Rsum_map_scal.
  rewrite Rsum_count_occ.
  - apply Rinv_r. apply not_0_INR. destruct s; [contradiction | discriminate].
  - apply NoDup_nodup.
  - intros x Hx. now apply nodup_In.
Qed.

(** Gibbs' inequality against the uniform distribution. *)
Lemma entropy_spec_le_log2r :
  s <> [] -> entropy_spec text <= log2r (INR (length D)).
Proof.
  intros Hs. rewrite entropy_spec_unfold.
  assert (HD : D <> []).
  { intros H. destruct s as [| c s'] eqn:E; [contradiction |].
    assert (Hc : In c D) by (apply nodup_In; now left).
    rewrite H in Hc. destruct Hc. }
  set (k := INR (length D)).
  assert (Hk : 0 < k).
  { apply lt_0_INR. destruct D; [contradiction | simpl; lia]. }
  pose proof ln2_pos as Hln2.
  assert (Hterm : forall c, In c D ->
             - (p c * ln (p c)) - p c * ln k <= / k - p c).
  { intros c Hc. pose proof (frequency_pos c Hc) as Hp.
    assert (Hy : 0 < / (k * p c)).
    { apply Rinv_0_lt_compat. now apply Rmult_lt_0_compat. }
    pose proof (ln_le_minus_1 _ Hy) as Hln.
    rewrite ln_Rinv in Hln by now apply Rmult_lt_0_compat.
    rewrite ln_mult in Hln by assumption.
    assert (Hmul : p c * (/ (k * p c) - 1) = / k - p c) by (field; lra).
    rewrite <- Hmul.
    replace (- (p c * ln (p c)) - p c * ln k)
      with (p c * - (ln k + ln (p c))) by ring.
    apply Rmult_le_compat_l; lra. }
  apply Rsum_map_le in Hterm.
  rewrite (Rsum_map_plus (fun c => / k) (fun c => - p c)) in Hterm.
  rewrite Rsum_map_const, Rsum_map_opp, frequency_sum in Hterm by exact Hs.
  fold k in Hterm. rewrite Rinv_r in Hterm by lra.
  rewrite (Rsum_map_plus (fun c => - (p c * ln (p c))) (fun c => - (p c * ln k)))
    in Hterm.
  rewrite (Rsum_map_opp (fun c => p c * ln k)) in Hterm.
  rewrite Rsum_map_scal, frequency_sum in Hterm by exact Hs.
  rewrite Rsum_map_opp in Hterm.
  unfold log2r.
  rewrite (Rsum_map_ext_in (fun c => p c * (ln (p c) / ln 2))
             (fun c => p c * ln (p c) * / ln 2))
    by (intros; unfold Rdiv; ring).
  rewrite Rsum_map_scal.
  unfold Rdiv.
  replace (- (Rsum (map (fun c => p c * ln (p c)) D) * / ln 2))
    with (- Rsum (map (fun c => p c * ln (p c)) D) * / ln 2) by ring.
  apply Rmult_le_compat_r; [left; now apply Rinv_0_lt_compat | lra].
Qed.

Lemma entropy_spec_single : (length D <= 1)%nat -> entropy_spec text = 0.
Proof.
  intros HD. rewrite entropy_spec_unfold.
  destruct D as [| c [| c' D']] eqn:E; simpl in HD; try lia.
  - simpl. lra.
  - assert (Hs : s <> []).
    { intros H. unfold D in E. rewrite H in E. discriminate. }
    pose proof (frequency_sum Hs) as Hsum. rewrite E in Hsum.
    simpl in Hsum. assert (Hp : p c = 1) by lra.
    simpl. rewrite Hp, log2r_1. lra.
Qed.

Lemma entropy_spec_several : (2 <= length D)%nat -> 0 < entropy_spec text.
Proof.
  intros HD. rewrite entropy_spec_unfold.
  assert (Hs : s <> []).
  { intros H. unfold D in HD. rewrite H in HD. simpl in HD. lia. }
  assert (HDne : D <> []) by (destruct D; [simpl in HD; lia | discriminate]).
  pose proof ln2_pos as Hln2.
  assert (Hlt : forall c, In c D -> p c < 1).
  { intros c Hc.
    assert (Hother : exists d, In d D /\ d <> c).
    { destruct D as [| a [| b D']] eqn:E; simpl in HD; try lia.
      assert (Hab : a <> b).
      { pose proof (NoDup_nodup char_eq_dec s) as Hnd. fold D in Hnd.
        rewrite E in Hnd. inversion Hnd as [| ? ? Ha _]; subst.
        intros ->. apply Ha. now left. }
      destruct (char_eq_dec a c) as [-> | Hac].
      - exists b. split; [right; now left | congruence].
      - exists a. split; [now left | exact Hac]. }
    destruct Hother as [d [Hd Hdc]].
    pose proof (frequency_sum Hs) as Hsum.
    pose proof (NoDup_nodup char_eq_dec s) as Hnd. fold D in Hnd.
    destruct (in_split c D Hc) as [l1 [l2 HDeq]].
    assert (Hperm : Permutation D (c :: l1 ++ l2)).
    { rewrite HDeq. apply Permutation_sym, Permutation_middle. }
    rewrite (Rsum_perm _ _ (Permutation_map p Hperm)) in Hsum.
    simpl in Hsum. fold (Rsum (map p (l1 ++ l2))) in Hsum.
    assert (Hd' : In d (l1 ++ l2)).
    { apply (Permutation_in d Hperm) in Hd. destruct Hd as [Heq | Hd]; [congruence | exact Hd]. }
    assert (Hrest : 0 < Rsum (map p (l1 ++ l2))).
    { destruct (in_split d _ Hd') as [m1 [m2 Hm]]. rewrite Hm.
      rewrite map_app, Rsum_app. simpl. fold (Rsum (map p m2)).
      assert (Hnn : forall m, (forall x, In x m -> In x D) -> 0 <= Rsum (map p m)).
      { intros m Hm'. apply Rsum_nonneg, Forall_forall. intros y Hy.
        apply in_map_iff in Hy. destruct Hy as [z [<- Hz]].
        left. apply frequency_pos, Hm', Hz. }
      assert (Hin : forall x, In x (m1 ++ d :: m2) -> In x D).
      { intros x Hx. rewrite <- Hm in Hx.
        apply (Permutation_in x (Permutation_sym Hperm)). now right. }
      assert (0 <= Rsum (map p m1))
        by (apply Hnn; intros x Hx; apply Hin, in_or_app; now left).
      assert (0 <= Rsum (map p m2))
        by (apply Hnn; intros x Hx; apply Hin, in_or_app; right; now right).
      pose proof (frequency_pos d Hd). lra. }
    lra. }
  assert (Hneg : Rsum (map (fun c => p c * log2r (p c)) D)
                 < Rsum (map (fun _ => 0) D)).
  { apply Rsum_map_lt; [exact HDne |]. intros c Hc.
    pose proof (frequency_pos c Hc) as Hp. pose proof (Hlt c Hc) as Hp1.
    pose proof (ln_neg _ Hp Hp1) as Hln.
    unfold log2r.
    assert (Hq : ln (p c) / ln 2 < 0).
    { unfold Rdiv. assert (0 < / ln 2) by now apply Rinv_0_lt_compat. nra. }
    nra. }
  rewrite Rsum_map_const in Hneg. lra.
Qed.

End EntropyOf.

(** Where U+0130 does not occur, lower-casing keeps the length, and the
    divisor of [calculate_entropy] is the length of the lower-cased text. *)
Lemma entropy_value_shannon (text : str) :
  ~ In U0130 text -> entropy_value text = entropy_spec text.
Proof.
  intros H. unfold entropy_value, entropy_spec. cbv zeta.
  now rewrite (lower_length text H).
Qed.

Lemma lit_no_U0130 (s : string) : ~ In U0130 (lit s).
Proof.
  unfold lit. rewrite in_map_iff. intros [a [H _]]. discriminate.
Qed.

(** X8.  For a text in which the character U+0130 does not occur,
    [calculate_entropy] returns the Shannon entropy of the lower-cased
    text: minus the sum of [p * log2 p] over its distinct characters, [p]
    being the relative frequency in the lower-cased text. *)
Theorem calculate_entropy_shannon_same_length (self : NLPAnalyzer)
  (text : str) :
  ~ In U0130 text ->
  calculate_entropy self text = Ok (entropy_spec text).
Proof.
  intros H. rewrite calculate_entropy_eq. f_equal.
  now apply entropy_value_shannon.
Qed.

(** The entropy of "Hello World". *)
Lemma calculate_entropy_shannon_same_length_witness :
  ~ In U0130 (lit "Hello World")
  /\ calculate_entropy (NLPAnalyzer_init insertion_seed) (lit "Hello World")
     = Ok (entropy_spec (lit "Hello World")).
Proof.
  split; [apply lit_no_U0130 |].
  apply (calculate_entropy_shannon_same_length
           (NLPAnalyzer_init insertion_seed) (lit "Hello World")).
  apply lit_no_U0130.
Defined.

(** X9.  For a text in which U+0130 does not occur, the entropy is 0
    exactly when the lower-cased text has at most one distinct character;
    with two or more it is positive. *)
Theorem calculate_entropy_zero_iff (self : NLPAnalyzer) (text : str) :
  ~ In U0130 text ->
  exists e,
    calculate_entropy self text = Ok e
    /\ (e = 0 <-> (length (nodup char_eq_dec (lower text)) <= 1)%nat)
    /\ ((2 <= length (nodup char_eq_dec (lower text)))%nat -> 0 < e).
Proof.
  intros HU. rewrite calculate_entropy_eq, (entropy_value_shannon text HU).
  eexists. split; [reflexivity |]. split; [split |].
  - intros H.
    destruct (le_lt_dec (length (nodup char_eq_dec (lower text))) 1)
      as [Hle | Hgt]; [exact Hle |].
    pose proof (entropy_spec_several text Hgt). lra.
  - apply entropy_spec_single.
  - apply entropy_spec_several.
Qed.

(** "Aa a" has the two distinct lower-cased characters [a] and the
    space. *)
Lemma calculate_entropy_zero_iff_witness :
  ~ In U0130 (lit "Aa a")
  /\ exists e,
       calculate_entropy (NLPAnalyzer_init insertion_seed) (lit "Aa a") = Ok e
       /\ (e = 0 <-> (length (nodup char_eq_dec (lower (lit "Aa a"))) <= 1)%nat)
       /\ ((2 <= length (nodup char_eq_dec (lower (lit "Aa a"))))%nat -> 0 < e).
Proof.
  split; [apply lit_no_U0130 |].
  apply (calculate_entropy_zero_iff (NLPAnalyzer_init insertion_seed)
           (lit "Aa a")).
  apply lit_no_U0130.
Defined.

Lemma ln_32 : ln 32 = 5 * ln 2.
Proof.
  replace 32 with (2 * (2 * (2 * (2 * 2)))) by lra.
  rewrite !ln_mult by lra. ring.
Qed.

(** X10.  A text without U+0130 whose lower-cased form has fewer than 32
    distinct characters has an entropy below 5, the value at which the
    scorer caps its entropy factor. *)
Theorem calculate_entropy_below_cap (self : NLPAnalyzer) (text : str) :
  ~ In U0130 text ->
  (length (nodup char_eq_dec (lower text)) < 32)%nat ->
  exists e, calculate_entropy self text = Ok e /\ e < 5.
Proof.
  intros HU Hk. rewrite calculate_entropy_eq, (entropy_value_shannon text HU).
  eexists. split; [reflexivity |].
  destruct text as [| c t].
  - unfold entropy_spec. simpl. lra.
  - pose proof (entropy_spec_le_log2r (c :: t)) as Hle. cbv zeta in Hle.
    assert (Hne : lower (c :: t) <> []).
    { intros H. apply (proj1 (lower_nil_iff _)) in H. discriminate. }
    specialize (Hle Hne).
    set (k := length (nodup char_eq_dec (lower (c :: t)))) in *.
    assert (Hk1 : (1 <= k)%nat).
    { destruct k eqn:E; [| lia]. exfalso.
      unfold k in E. apply length_zero_iff_nil in E.
      destruct (lower (c :: t)) as [| d l]; [now apply Hne |].
      assert (Hd : In d (nodup char_eq_dec (d :: l)))
        by (apply nodup_In; now left).
      rewrite E in Hd. destruct Hd. }
    assert (Hlog : log2r (INR k) < 5).
    { unfold log2r. pose proof ln2_pos as Hln2.
      assert (Hlt : ln (INR k) < ln 32).
      { apply ln_increasing; [apply lt_0_INR; lia |].
        replace 32 with (INR 32) by (simpl; lra). apply lt_INR. exact Hk. }
      rewrite ln_32 in Hlt.
      apply (Rmult_lt_reg_r (ln 2)); [exact Hln2 |].
      unfold Rdiv. rewrite Rmult_assoc, Rinv_l by lra. lra. }
    lra.
Qed.

(** The entropy of "hello world", a text of eight distinct characters. *)
Lemma calculate_entropy_below_cap_witness :
  ~ In U0130 (lit "hello world")
  /\ (length (nodup char_eq_dec (lower (lit "hello world"))) < 32)%nat
  /\ exists e,
       calculate_entropy (NLPAnalyzer_init insertion_seed) (lit "hello world")
       = Ok e
       /\ e < 5.
Proof.
  split; [apply lit_no_U0130 | split].
  - vm_compute. lia.
  - apply (calculate_entropy_below_cap (NLPAnalyzer_init insertion_seed)
             (lit "hello world")).
    + apply lit_no_U0130.
    + vm_compute. lia.
Defined.

(** ** Complexity *)

(** X11.  The complexity score is 0 exactly when the text has no word
    (the empty string, or white space only); any text with a word scores
    above 0. *)
Theorem calculate_complexity_score_zero_iff (h : HashSeed)
  (self : NLPAnalyzer) (text : str) :
  exists c,
    calculate_complexity_score h self text = Ok c
    /\ (c = 0 <-> split text = []).
Proof.
  rewrite calculate_complexity_score_eq. eexists. split; [reflexivity |].
  destruct text as [| a t]; [split; reflexivity |].
  unfold complexity_spec. cbv zeta.
  set (text := a :: t). set (words := split text).
  pose proof (ratio_nonneg (length (concat words)) (length words)) as H1.
  pose proof (ratio_nonneg (length words) (length (split_on (Latin1 ".") text))) as H2.
  pose proof (ratio_bounds _ _ (unique_count_le words)) as H3.
  destruct words as [| w ws] eqn:Ew.
  - split; [reflexivity |]. intros _.
    change (unique_count []) with 0%nat. change (length (@nil str)) with 0%nat.
    change (concat (@nil str)) with (@nil char).
    change (length (@nil char)) with 0%nat.
    simpl INR. unfold Rdiv. rewrite !Rmult_0_l. minmax.
  - split; [| discriminate]. intros H0. exfalso.
    assert (Hu : (1 <= unique_count (w :: ws))%nat).
    { destruct (unique_count (w :: ws)) eqn:Eu; [| lia].
      apply unique_count_0 in Eu. discriminate. }
    assert (Hpos : 0 < INR (unique_count (w :: ws)) / INR (length (w :: ws))).
    { apply Rdiv_lt_0_compat; apply lt_0_INR; simpl; lia. }
    revert H0. minmax.
Qed.

(** ** Novelty *)

Lemma Rsum_zero_iff (l : list R) :
  Forall (fun x => 0 <= x) l -> (Rsum l = 0 <-> Forall (fun x => x = 0) l).
Proof.
  induction 1 as [| x l Hx Hl IH]; simpl.
  - split; [constructor | reflexivity].
  - fold (Rsum l). pose proof (Rsum_nonneg l Hl) as Hs. split.
    + intros H. constructor; [lra |]. apply IH. lra.
    + intros H. inversion H; subst. apply IH in H3. lra.
Qed.

Lemma common_count_zero_iff (a b : list str) :
  common_count a b = 0%nat <-> (forall g, In g a -> ~ In g b).
Proof.
  unfold common_count. rewrite length_zero_iff_nil. split.
  - intros H g Ha Hb.
    assert (Hin : In g (filter (fun x => mem x b) (nodup str_eq_dec a))).
    { apply filter_In. split; [now apply nodup_In | now apply mem_true_iff]. }
    rewrite H in Hin. destruct Hin.
  - intros H.
    destruct (filter (fun x => mem x b) (nodup str_eq_dec a)) as [| g l] eqn:E;
      [reflexivity |].
    assert (Hin : In g (filter (fun x => mem x b) (nodup str_eq_dec a)))
      by (rewrite E; now left).
    apply filter_In in Hin. destruct Hin as [Ha Hb].
    apply nodup_In in Ha. apply mem_true_iff in Hb.
    exfalso. exact (H g Ha Hb).
Qed.

Lemma common_count_comm (a b : list str) : common_count a b = common_count b a.
Proof.
  unfold common_count. apply Permutation_length. apply NoDup_Permutation.
  - apply NoDup_filter, NoDup_nodup.
  - apply NoDup_filter, NoDup_nodup.
  - intros x. rewrite !filter_In, !nodup_In, !mem_true_iff. tauto.
Qed.

Lemma overlap_ratio_zero_iff (a b : list str) :
  a <> [] ->
  (overlap_ratio a b = 0 <-> common_count a b = 0%nat).
Proof.
  intros Ha. unfold overlap_ratio.
  assert (Hu : (1 <= unique_count a)%nat).
  { destruct (unique_count a) eqn:E; [| lia].
    apply unique_count_0 in E. contradiction. }
  assert (Hm : 0 < INR (Nat.max (unique_count a) (unique_count b)))
    by (apply lt_0_INR; lia).
  split.
  - intros H. apply INR_eq. simpl (INR 0).
    apply (Rmult_eq_reg_r (/ INR (Nat.max (unique_count a) (unique_count b)))).
    + unfold Rdiv in H. lra.
    + apply Rinv_neq_0_compat. lra.
  - intros ->. simpl. unfold Rdiv. apply Rmult_0_l.
Qed.

(** X12.  For a current text that has an n-gram and a non-empty reference
    list, the novelty is 1 exactly when no n-gram of the current text
    occurs in any reference text. *)
Theorem calculate_novelty_score_one_iff (h : HashSeed) (self : NLPAnalyzer)
  (current_text : str) (reference_texts : list str) (n : nat) :
  extract_ngrams self current_text n <> [] ->
  reference_texts <> [] ->
  exists v,
    calculate_novelty_score h self current_text reference_texts n = Ok v
    /\ (v = 1
        <-> forall r g,
              In r reference_texts ->
              In g (extract_ngrams self current_text n) ->
              ~ In g (extract_ngrams self r n)).
Proof.
  intros Hcur Hrefs. rewrite calculate_novelty_score_eq.
  eexists. split; [reflexivity |].
  unfold novelty_spec. cbv zeta.
  destruct reference_texts as [| r0 rs]; [contradiction |].
  set (refs := r0 :: rs). set (cur := extract_ngrams self current_text n) in *.
  assert (Hu : (unique_count cur =? 0)%nat = false).
  { apply Nat.eqb_neq. intros H. apply unique_count_0 in H. contradiction. }
  rewrite Hu.
  set (contributing :=
         filter (fun r => negb (unique_count (extract_ngrams self r n) =? 0)%nat)
                refs).
  set (ratios := map (fun r => overlap_ratio cur (extract_ngrams self r n))
                     contributing).
  assert (Hnn : Forall (fun x => 0 <= x) ratios).
  { apply Forall_forall. intros x Hx. apply in_map_iff in Hx.
    destruct Hx as [r [<- _]]. apply overlap_ratio_range. }
  pose proof (Rsum_nonneg ratios Hnn) as Hs.
  assert (Hlen : 0 < INR (length refs)) by (apply lt_0_INR; simpl; lia).
  assert (Havg : 0 <= Rsum ratios / INR (length refs)).
  { apply Rmult_le_pos; [exact Hs | left; now apply Rinv_0_lt_compat]. }
  assert (Hone : Rmax 0 (1 - Rmin (Rsum ratios / INR (length refs)) 1) = 1
                 <-> Rsum ratios = 0).
  { split.
    - intros H.
      assert (H0 : Rsum ratios / INR (length refs) = 0) by (revert H; minmax).
      unfold Rdiv in H0. apply Rmult_integral in H0.
      destruct H0 as [H0 | H0]; [exact H0 |].
      exfalso. apply (Rinv_neq_0_compat (INR (length refs))); lra.
    - intros ->. unfold Rdiv. rewrite Rmult_0_l. minmax. }
  rewrite Hone, (Rsum_zero_iff ratios Hnn). unfold ratios.
  rewrite Forall_map, Forall_forall. unfold contributing. split.
  - intros H r g Hr Hg Hgr.
    assert (Hr' : In r (filter
                          (fun r => negb (unique_count (extract_ngrams self r n) =? 0)%nat)
                          refs)).
    { apply filter_In. split; [exact Hr |]. apply negb_true_iff, Nat.eqb_neq.
      intros H0. apply unique_count_0 in H0. rewrite H0 in Hgr. destruct Hgr. }
    specialize (H r Hr'). apply (overlap_ratio_zero_iff _ _ Hcur) in H.
    exact (proj1 (common_count_zero_iff _ _) H g Hg Hgr).
  - intros H r Hr. apply filter_In in Hr. destruct Hr as [Hr _].
    apply (overlap_ratio_zero_iff _ _ Hcur), common_count_zero_iff.
    intros g Hg. now apply (H r g).
Qed.

(** "a b c" against "x y z": nothing shared. *)
Lemma calculate_novelty_score_one_iff_witness :
  extract_ngrams (NLPAnalyzer_init insertion_seed) (lit "a b c") 3 <> []
  /\ [lit "x y z"] <> []
  /\ exists v,
       calculate_novelty_score insertion_seed (NLPAnalyzer_init insertion_seed)
         (lit "a b c") [lit "x y z"] 3
       = Ok v
       /\ (v = 1
           <-> forall r g,
                 In r [lit "x y z"] ->
                 In g (extract_ngrams (NLPAnalyzer_init insertion_seed)
                         (lit "a b c") 3) ->
                 ~ In g (extract_ngrams (NLPAnalyzer_init insertion_seed) r 3)).
Proof.
  assert (H1 : extract_ngrams (NLPAnalyzer_init insertion_seed) (lit "a b c") 3
               <> []) by (vm_compute; discriminate).
  assert (H2 : [lit "x y z"] <> []) by discriminate.
  split; [exact H1 | split; [exact H2 |]].
  exact (calculate_novelty_score_one_iff insertion_seed
           (NLPAnalyzer_init insertion_seed) (lit "a b c") [lit "x y z"] 3
           H1 H2).
Defined.

(** X13.  Novelty against a single reference is symmetric: two texts
    that both have at least [n] tokens are equally novel against each
    other. *)
Theorem calculate_novelty_score_symmetric (h : HashSeed) (self : NLPAnalyzer)
  (x y : str) (n : nat) :
  (n <= length (split x))%nat ->
  (n <= length (split y))%nat ->
  calculate_novelty_score h self x [y] n
  = calculate_novelty_score h self y [x] n.
Proof.
  intros Hx Hy. rewrite !calculate_novelty_score_eq. f_equal.
  unfold novelty_spec. cbv zeta. cbn [filter].
  assert (Hne : forall t, (n <= length (split t))%nat ->
                  (unique_count (extract_ngrams self t n) =? 0)%nat = false).
  { intros t Ht. apply Nat.eqb_neq. intros H0. apply unique_count_0 in H0.
    pose proof (extract_ngrams_length self t n Ht) as Hl.
    rewrite H0 in Hl. simpl in Hl. lia. }
  rewrite (Hne x Hx), (Hne y Hy). cbn [negb map].
  unfold overlap_ratio.
  rewrite (common_count_comm (extract_ngrams self y n)), (Nat.max_comm (unique_count (extract_ngrams self y n))).
  reflexivity.
Qed.

(** "a b c d" and "b c d e" against each other. *)
Lemma calculate_novelty_score_symmetric_witness :
  (3 <= length (split (lit "a b c d")))%nat
  /\ (3 <= length (split (lit "b c d e")))%nat
  /\ calculate_novelty_score insertion_seed (NLPAnalyzer_init insertion_seed)
       (lit "a b c d") [lit "b c d e"] 3
     = calculate_novelty_score insertion_seed (NLPAnalyzer_init insertion_seed)
         (lit "b c d e") [lit "a b c d"] 3.
Proof.
  assert (H1 : (3 <= length (split (lit "a b c d")))%nat) by (vm_compute; lia).
  assert (H2 : (3 <= length (split (lit "b c d e")))%nat) by (vm_compute; lia).
  split; [exact H1 | split; [exact H2 |]].
  exact (calculate_novelty_score_symmetric insertion_seed
           (NLPAnalyzer_init insertion_seed) _ _ 3 H1 H2).
Defined.

(** X14.  A reference text without an n-gram adds nothing to the overlap
    but counts in the average: adding one to a non-empty reference list
    never lowers the novelty. *)
Theorem calculate_novelty_score_short_reference (h : HashSeed)
  (self : NLPAnalyzer) (current_text short : str)
  (reference_texts : list str) (n : nat) :
  reference_texts <> [] ->
  extract_ngrams self short n = [] ->
  exists v v',
    calculate_novelty_score h self current_text reference_texts n = Ok v
    /\ calculate_novelty_score h self current_text (short :: reference_texts) n
       = Ok v'
    /\ v <= v'.
Proof.
  intros Hrefs Hshort. rewrite !calculate_novelty_score_eq.
  eexists. eexists. split; [reflexivity | split; [reflexivity |]].
  unfold novelty_spec. cbv zeta.
  destruct reference_texts as [| r0 rs]; [contradiction |].
  destruct (_ =? 0)%nat; [lra |].
  cbn [filter]. rewrite Hshort. change (unique_count []) with 0%nat.
  cbn [Nat.eqb negb].
  set (ratios := map _ _).
  assert (Hs : 0 <= Rsum ratios).
  { apply Rsum_nonneg, Forall_forall. intros x Hx. apply in_map_iff in Hx.
    destruct Hx as [r [<- _]]. apply overlap_ratio_range. }
  set (m := length (r0 :: rs)).
  change (length (short :: r0 :: rs)) with (S m). rewrite S_INR.
  assert (Hm : 0 < INR m) by (apply lt_0_INR; unfold m; simpl; lia).
  assert (Hle : Rsum ratios / (INR m + 1) <= Rsum ratios / INR m).
  { unfold Rdiv. apply Rmult_le_compat_l; [exact Hs |].
    apply Rinv_le_contravar; lra. }
  minmax.
Qed.

(** "a b c" against ["a b c"], then with the short text "hi" added. *)
Lemma calculate_novelty_score_short_reference_witness :
  [lit "a b c"] <> []
  /\ extract_ngrams (NLPAnalyzer_init insertion_seed) (lit "hi") 3 = []
  /\ exists v v',
       calculate_novelty_score insertion_seed (NLPAnalyzer_init insertion_seed)
         (lit "a b c") [lit "a b c"] 3
       = Ok v
       /\ calculate_novelty_score insertion_seed
            (NLPAnalyzer_init insertion_seed)
            (lit "a b c") [lit "hi"; lit "a b c"] 3
          = Ok v'
       /\ v <= v'.
Proof.
  assert (H1 : [lit "a b c"] <> []) by discriminate.
  assert (H2 : extract_ngrams (NLPAnalyzer_init insertion_seed) (lit "hi") 3
               = []) by reflexivity.
  split; [exact H1 | split; [exact H2 |]].
  exact (calculate_novelty_score_short_reference insertion_seed
           (NLPAnalyzer_init insertion_seed) (lit "a b c") (lit "hi")
           [lit "a b c"] 3 H1 H2).
Defined.

(** ** Keywords and their density *)

Lemma backspace_not_space : isspace backspace = false.
Proof. reflexivity. Qed.

(** The letters of a lower-cased text are the letters a to z. *)
Lemma lower_char_alpha_is_lowercase (c d : char) :
  In d (lower_char c) -> is_ascii_alpha d = true ->
  exists a, d = Latin1 a /\ between 97 122 a = true.
Proof.
  destruct c as [a | |].
  - intros [<- | []].
    destruct a as [[] [] [] [] [] [] [] []]; simpl; intros H;
      first [discriminate H | eexists; split; reflexivity].
  - intros [<- | [<- | []]] H; [| discriminate].
    eexists. split; reflexivity.
  - intros [<- | []] H. discriminate.
Qed.

Lemma lower_alpha_is_lowercase (s : str) (d : char) :
  In d (lower s) -> is_ascii_alpha d = true ->
  exists a, d = Latin1 a /\ between 97 122 a = true.
Proof.
  unfold lower. rewrite in_flat_map. intros [c [_ Hd]].
  now apply (lower_char_alpha_is_lowercase c).
Qed.

Lemma split_ws_from_nil (s cur : str) :
  split_ws_from cur s = [] -> cur = [] /\ forallb isspace s = true.
Proof.
  revert cur. induction s as [| c s IH]; intros cur; simpl.
  - destruct cur; [auto | discriminate].
  - destruct (isspace c) eqn:Ec.
    + destruct cur; [| discriminate]. intros H. apply IH in H. tauto.
    + intros H. apply IH in H. destruct H as [H _]. discriminate.
Qed.

(** A text without tokens has no keyword: it is white space only, while
    every match of the pattern holds the character U+0008. *)
Lemma extract_keywords_no_tokens (h : HashSeed) (self : NLPAnalyzer)
  (text : str) (n : nat) :
  split text = [] -> extract_keywords h self text n = [].
Proof.
  intros Hsplit. apply extract_keywords_no_backspace. intros Hin.
  apply split_ws_from_nil in Hsplit. destruct Hsplit as [_ Hall].
  rewrite forallb_forall in Hall. apply Hall in Hin.
  rewrite backspace_not_space in Hin. discriminate.
Qed.

(** X15.  The density mapping has exactly one entry for every extracted
    keyword, in the order of the keywords; the early return for a text
    without tokens drops nothing, since such a text has no keyword. *)
Theorem calculate_keyword_density_keys (h : HashSeed) (self : NLPAnalyzer)
  (text : str) :
  exists densities,
    calculate_keyword_density h self text = Ok densities
    /\ keys densities = extract_keywords h self text 3.
Proof.
  rewrite calculate_keyword_density_eq. eexists. split; [reflexivity |].
  cbv zeta. destruct (length (split text) =? 0)%nat eqn:E.
  - apply Nat.eqb_eq, length_zero_iff_nil in E.
    rewrite (extract_keywords_no_tokens h self text 3 E).
    reflexivity.
  - unfold keys. rewrite map_map. simpl. apply map_id.
Qed.

(** X16.  Raising [min_length] only removes keywords: the keywords at a
    larger minimum [m'] are those at the smaller minimum whose letters
    number at least [m'], that is whose length, with the closing U+0008,
    is at least [m' + 1]. *)
Theorem extract_keywords_min_length (h : HashSeed) (self : NLPAnalyzer)
  (text : str) (m m' : nat) (w : str) :
  (1 <= m)%nat -> (m <= m')%nat ->
  (In w (extract_keywords h self text m')
   <-> In w (extract_keywords h self text m) /\ (m' + 1 <= length w)%nat).
Proof.
  intros Hm Hmm'. rewrite !extract_keywords_In_any.
  rewrite (findall_spec m' (lower text) w) by lia.
  rewrite (findall_spec m (lower text) w) by lia.
  split.
  - intros [[pre [run [post [Hs [Hw [Hlen H]]]]]] Hstop].
    split; [split; [| exact Hstop] |].
    + exists pre, run, post. split; [exact Hs | split; [exact Hw | split; [lia | exact H]]].
    + rewrite Hw, length_app. simpl. lia.
  - intros [[[pre [run [post [Hs [Hw [_ H]]]]]] Hstop] Hlen].
    split; [| exact Hstop].
    exists pre, run, post.
    split; [exact Hs | split; [exact Hw | split; [| exact H]]].
    rewrite Hw, length_app in Hlen. simpl in Hlen. lia.
Qed.

(** The keyword [school]+U+0008 of a text, at the minimum lengths 2 and
    6. *)
Lemma extract_keywords_min_length_witness :
  let text := lit "go to school" ++ backspace :: lit " today" in
  let w := lit "school" ++ [backspace] in
  (1 <= 2)%nat /\ (2 <= 6)%nat
  /\ In w (extract_keywords insertion_seed (NLPAnalyzer_init insertion_seed)
             text 6)
  /\ (In w (extract_keywords insertion_seed (NLPAnalyzer_init insertion_seed)
              text 6)
      <-> In w (extract_keywords insertion_seed
                  (NLPAnalyzer_init insertion_seed) text 2)
          /\ (6 + 1 <= length w)%nat).
Proof.
  assert (H1 : (1 <= 2)%nat) by lia.
  assert (H2 : (2 <= 6)%nat) by lia.
  split; [exact H1 | split; [exact H2 | split]].
  - vm_compute. auto.
  - exact (extract_keywords_min_length insertion_seed
             (NLPAnalyzer_init insertion_seed)
             (lit "go to school" ++ backspace :: lit " today")
             2 6 (lit "school" ++ [backspace]) H1 H2).
Defined.

(** X17.  Every keyword is a run of at least [min_length] of the
    lower-case letters a to z, whatever the case of the text, followed by
    the one character U+0008, which the text then contains; so a text
    without U+0008 has no keyword. *)
Theorem extract_keywords_shape (h : HashSeed) (self : NLPAnalyzer)
  (text : str) (min_length : nat) (w : str) :
  In w (extract_keywords h self text min_length) ->
  In backspace text
  /\ exists run,
       w = run ++ [backspace]
       /\ (min_length <= length run)%nat
       /\ Forall (fun c => exists a, c = Latin1 a /\ between 97 122 a = true)
            run.
Proof.
  intros Hw. apply extract_keywords_In_any in Hw. destruct Hw as [Hw _].
  destruct (findall_from_sound min_length w (lower text) None 0 Hw)
    as [run [Hrun [Hlen [Halpha [pre [post Hs]]]]]].
  split.
  - apply lower_backspace. rewrite Hs, Hrun, !in_app_iff.
    right. left. right. now left.
  - exists run. split; [exact Hrun | split; [exact Hlen |]].
    apply Forall_forall. intros c Hc.
    rewrite forallb_forall in Halpha.
    apply (lower_alpha_is_lowercase text c); [| now apply Halpha].
    rewrite Hs, Hrun, !in_app_iff. right. left. now left.
Qed.

(** The keyword [hello]+U+0008 of [Hello], U+0008, [ World]. *)
Lemma extract_keywords_shape_witness :
  let text := lit "Hello" ++ backspace :: lit " World" in
  let w := lit "hello" ++ [backspace] in
  In w (extract_keywords insertion_seed (NLPAnalyzer_init insertion_seed)
          text 3)
  /\ In backspace text
  /\ exists run,
       w = run ++ [backspace]
       /\ (3 <= length run)%nat
       /\ Forall (fun c => exists a, c = Latin1 a /\ between 97 122 a = true)
            run.
Proof.
  assert (H : In (lit "hello" ++ [backspace])
                (extract_keywords insertion_seed
                   (NLPAnalyzer_init insertion_seed)
                   (lit "Hello" ++ backspace :: lit " World") 3))
    by (vm_compute; auto).
  split; [exact H |].
  exact (extract_keywords_shape insertion_seed
           (NLPAnalyzer_init insertion_seed)
           (lit "Hello" ++ backspace :: lit " World") 3
           (lit "hello" ++ [backspace]) H).
Defined.

(** No stop word holds the character U+0008. *)
Lemma stop_words_no_backspace (w : str) :
  In w stop_words_literal -> ~ In backspace w.
Proof.
  intros Hw Hb.
  assert (H : forallb (fun w => negb (existsb is_backspace w))
                stop_words_literal = true) by reflexivity.
  rewrite forallb_forall in H. specialize (H w Hw).
  apply negb_true_iff in H.
  assert (Hex : existsb is_backspace w = true).
  { apply existsb_exists. exists backspace. split; [exact Hb | reflexivity]. }
  congruence.
Qed.

Lemma filter_all {A : Type} (f : A -> bool) (l : list A) :
  (forall x, In x l -> f x = true) -> filter f l = l.
Proof.
  induction l as [| x l IH]; intros H; [reflexivity |].
  simpl. rewrite (H x (or_introl eq_refl)). f_equal.
  apply IH. intros y Hy. apply H. now right.
Qed.

(** X22.  With the stop words of [__init__] the stop-word filter of
    [extract_keywords] removes nothing: every match of the pattern ends
    in U+0008, which no stop word holds, so the result is the set of all
    matches; the run [the] followed by U+0008 is returned as a keyword. *)
Theorem extract_keywords_filter_keeps_all (h : HashSeed) (text : str)
  (min_length : nat) :
  extract_keywords h (NLPAnalyzer_init h) text min_length
  = set_of h (findall min_length (lower text))
  /\ In (lit "the") stop_words_literal
  /\ In (lit "the" ++ [backspace])
        (extract_keywords h (NLPAnalyzer_init h)
           (lit "The" ++ backspace :: lit " end") 3).
Proof.
  assert (Heq : forall text n,
             extract_keywords h (NLPAnalyzer_init h) text n
             = set_of h (findall n (lower text))).
  { intros text' n. unfold extract_keywords. f_equal.
    apply filter_all. intros w Hw.
    cbn [stop_words NLPAnalyzer_init]. rewrite mem_set_of.
    apply negb_true_iff.
    destruct (mem w stop_words_literal) eqn:E; [| reflexivity].
    exfalso. apply mem_true_iff in E.
    apply (stop_words_no_backspace w E).
    destruct (findall_from_sound n w (lower text') None 0 Hw)
      as [run [Hrun _]].
    rewrite Hrun, in_app_iff. right. now left. }
  split; [apply Heq | split].
  - apply mem_true_iff. reflexivity.
  - rewrite Heq, set_of_In. vm_compute. auto.
Qed.

(** X23.  For [min_length] at least 1, [extract_keywords] returns,
    without duplicates, exactly the matches of the pattern in the
    lower-cased text: the runs of at least [min_length] letters that no
    word character precedes and U+0008 follows, each with its U+0008. *)
Theorem extract_keywords_matches (h : HashSeed) (text : str)
  (min_length : nat) :
  (1 <= min_length)%nat ->
  let keywords := extract_keywords h (NLPAnalyzer_init h) text min_length in
  NoDup keywords
  /\ forall w, In w keywords <-> keyword_match min_length None (lower text) w.
Proof.
  intros Hn keywords. split; [apply set_of_NoDup |].
  intros w. unfold keywords.
  rewrite extract_keywords_In_any,
    (findall_spec min_length (lower text) w Hn).
  split; [tauto |]. intros Hw. split; [exact Hw |].
  cbn [stop_words NLPAnalyzer_init]. rewrite mem_set_of.
  destruct (mem w stop_words_literal) eqn:E; [| reflexivity].
  exfalso. apply mem_true_iff in E.
  apply (stop_words_no_backspace w E).
  destruct Hw as [pre [run [post [_ [Hrun _]]]]].
  rewrite Hrun, in_app_iff. right. now left.
Qed.

(** The keywords of [the cat2], U+0008, [ sat], U+0008 at length 3: the
    run [sat] only, since a digit follows [cat]. *)
Lemma extract_keywords_matches_witness :
  let text := lit "the cat2" ++ backspace :: lit " sat" ++ [backspace] in
  (1 <= 3)%nat
  /\ extract_keywords insertion_seed (NLPAnalyzer_init insertion_seed) text 3
     = [lit "sat" ++ [backspace]]
  /\ NoDup (extract_keywords insertion_seed (NLPAnalyzer_init insertion_seed)
              text 3)
  /\ forall w,
       In w (extract_keywords insertion_seed (NLPAnalyzer_init insertion_seed)
               text 3)
       <-> keyword_match 3 None (lower text) w.
Proof.
  assert (H1 : (1 <= 3)%nat) by lia.
  split; [exact H1 | split; [reflexivity |]].
  exact (extract_keywords_matches insertion_seed
           (lit "the cat2" ++ backspace :: lit " sat" ++ [backspace]) 3 H1).
Defined.

(** ** The full analysis *)

Lemma get_enhanced_analysis_eq (h : HashSeed) (self : EnhancedThoughtScorer)
  (content : str) (existing_content : option (list str)) :
  get_enhanced_analysis h self content existing_content
  = let keywords := extract_keywords h (nlp self) content 3 in
    let total_words := length (split content) in
    let im :=
      match content with
      | [] => (0, [])
      | _ :: _ =>
          importance_breakdown (nlp self) content
            default_length_weight default_complexity_weight
            default_novelty_weight default_sentiment_weight
            default_entropy_weight existing_content
      end in
    Ok {| Analysis.keywords := firstn 10 keywords;
          Analysis.keyword_density :=
            firstn 5
              (if (total_words =? 0)%nat then []
               else map (fun keyword => (keyword, 1 / INR total_words)) keywords);
          Analysis.repetition_score :=
            (let words := split (lower content) in
             if (length words <=? 1)%nat then 0
             else Rmin (1 - INR (unique_count words) / INR (length words)) 1);
          Analysis.entropy := entropy_value content;
          Analysis.sentiment := fst (sentiment_spec content);
          Analysis.sentiment_score := snd (sentiment_spec content);
          Analysis.complexity_score :=
            match content with [] => 0 | _ :: _ => complexity_spec content end;
          Analysis.novelty_score :=
            novelty_spec (nlp self) content
              match existing_content with
              | Some (t :: ts) => t :: ts
              | _ => []
              end 3;
          Analysis.importance_score := fst im;
          Analysis.importance_metrics := snd im;
          Analysis.word_count := total_words;
          Analysis.char_count := length content |}.
Proof.
  unfold get_enhanced_analysis.
  rewrite calculate_keyword_density_eq. cbn [bind].
  rewrite calculate_repetition_score_eq. cbn [bind].
  rewrite calculate_entropy_eq. cbn [bind].
  rewrite analyze_sentiment_basic_eq. cbn [bind].
  destruct (sentiment_spec content) as [sentiment strength]. cbn [fst snd].
  rewrite calculate_complexity_score_eq. cbn [bind].
  rewrite calculate_novelty_score_eq. cbn [bind].
  destruct content as [| c t].
  - reflexivity.
  - rewrite calculate_enhanced_importance_eq. cbn [bind].
    destruct (importance_breakdown _ _ _ _ _ _ _ _) as [importance metrics].
    reflexivity.
Qed.

(** X18.  [get_enhanced_analysis] returns a result on every content and
    reference list, the empty ones included; it reports at most ten
    keywords, and the keys of the reported keyword density are the first
    five of the reported keywords. *)
Theorem get_enhanced_analysis_keywords (h : HashSeed)
  (self : EnhancedThoughtScorer) (content : str)
  (existing_content : option (list str)) :
  exists a,
    get_enhanced_analysis h self content existing_content = Ok a
    /\ (length (Analysis.keywords a) <= 10)%nat
    /\ keys (Analysis.keyword_density a) = firstn 5 (Analysis.keywords a).
Proof.
  rewrite get_enhanced_analysis_eq. cbv zeta.
  eexists. split; [reflexivity |].
  cbn [Analysis.keywords Analysis.keyword_density].
  split; [apply firstn_le_length |].
  rewrite firstn_firstn. change (Nat.min 5 10) with 5%nat.
  unfold keys. rewrite <- firstn_map. f_equal.
  destruct (length (split content) =? 0)%nat eqn:E.
  - apply Nat.eqb_eq, length_zero_iff_nil in E.
    rewrite (extract_keywords_no_tokens h (nlp self) content 3 E).
    reflexivity.
  - rewrite map_map. simpl. apply map_id.
Qed.

(** X19.  For a non-empty content the scores the analysis computes on
    their own agree with the factors of the importance: [importance_score]
    is [final_importance], [novelty_score] is [novelty_factor] (also
    without reference texts, where both are 1), [complexity_score] is
    [complexity_factor], [sentiment_factor] is 0.3 for the label neutral
    and [sentiment_score] otherwise, and [entropy_factor] is
    [min(entropy / 5, 1)]. *)
Theorem get_enhanced_analysis_consistent (h : HashSeed)
  (self : EnhancedThoughtScorer) (c : char) (t : str)
  (existing_content : option (list str)) :
  exists a,
    get_enhanced_analysis h self (c :: t) existing_content = Ok a
    /\ dict_get (lit "final_importance") (Analysis.importance_metrics a)
       = Some (Analysis.importance_score a)
    /\ dict_get (lit "novelty_factor") (Analysis.importance_metrics a)
       = Some (Analysis.novelty_score a)
    /\ dict_get (lit "complexity_factor") (Analysis.importance_metrics a)
       = Some (Analysis.complexity_score a)
    /\ dict_get (lit "sentiment_factor") (Analysis.importance_metrics a)
       = Some (if str_eq_dec (Analysis.sentiment a) (lit "neutral") then 0.3
               else Analysis.sentiment_score a)
    /\ dict_get (lit "entropy_factor") (Analysis.importance_metrics a)
       = Some (Rmin (Analysis.entropy a / 5) 1).
Proof.
  rewrite get_enhanced_analysis_eq. cbv zeta.
  eexists. split; [reflexivity |].
  cbn [Analysis.importance_metrics Analysis.importance_score
       Analysis.novelty_score Analysis.complexity_score Analysis.sentiment
       Analysis.sentiment_score Analysis.entropy].
  unfold importance_breakdown. cbv zeta. cbn [fst snd].
  repeat apply conj; try reflexivity.
  destruct existing_content as [[| r rs] |]; reflexivity.
Qed.

(** ** The weighted sum *)

(** X20.  With non-negative weights whose sum is at most 1, the default
    weights among them, the clamp never acts: the importance of a
    non-empty content is the plain weighted sum of the five reported
    factors. *)
Theorem calculate_enhanced_importance_unclamped (h : HashSeed)
  (self : EnhancedThoughtScorer) (c : char) (t : str)
  (lw cw nw sw ew : R) (existing_content : option (list str)) :
  0 <= lw -> 0 <= cw -> 0 <= nw -> 0 <= sw -> 0 <= ew ->
  lw + cw + nw + sw + ew <= 1 ->
  exists importance factors lf cf nf sf ef,
    calculate_enhanced_importance h self (c :: t) lw cw nw sw ew
      existing_content
    = Ok (importance, factors)
    /\ dict_get (lit "length_factor") factors = Some lf
    /\ dict_get (lit "complexity_factor") factors = Some cf
    /\ dict_get (lit "novelty_factor") factors = Some nf
    /\ dict_get (lit "sentiment_factor") factors = Some sf
    /\ dict_get (lit "entropy_factor") factors = Some ef
    /\ importance = lf * lw + cf * cw + nf * nw + sf * sw + ef * ew.
Proof.
  intros Hl Hc Hn Hs He Hsum.
  rewrite calculate_enhanced_importance_eq.
  unfold importance_breakdown. cbv zeta.
  do 7 eexists. split; [reflexivity |].
  repeat (split; [reflexivity |]).
  unfold weighted_importance.
  pose proof (length_factor_range (c :: t)) as H1.
  pose proof (complexity_spec_range (c :: t)) as H2.
  assert (H3 : 0 <= match reference_list existing_content with
                    | [] => 1
                    | r :: rs => novelty_spec (nlp self) (c :: t) (r :: rs) 3
                    end <= 1)
    by (destruct (reference_list existing_content); [lra | apply novelty_spec_range]).
  pose proof (sentiment_factor_range (c :: t)) as H4.
  pose proof (entropy_factor_range (c :: t)) as H5.
  set (lf := Rmin (INR (length (c :: t)) / 500) 1) in *.
  set (cf := complexity_spec (c :: t)) in *.
  set (nf := match reference_list existing_content with
             | [] => 1 | r :: rs => novelty_spec (nlp self) (c :: t) (r :: rs) 3
             end) in *.
  set (sf := if str_eq_dec (fst (sentiment_spec (c :: t))) (lit "neutral")
             then 0.3 else snd (sentiment_spec (c :: t))) in *.
  set (ef := Rmin (entropy_value (c :: t) / 5) 1) in *.
  assert (0 <= lf * lw <= lw) by nra.
  assert (0 <= cf * cw <= cw) by nra.
  assert (0 <= nf * nw <= nw) by nra.
  assert (0 <= sf * sw <= sw) by nra.
  assert (0 <= ef * ew <= ew) by nra.
  minmax.
Qed.

(** The default weights on "hello". *)
Lemma calculate_enhanced_importance_unclamped_witness :
  0 <= default_length_weight /\ 0 <= default_complexity_weight
  /\ 0 <= default_novelty_weight /\ 0 <= default_sentiment_weight
  /\ 0 <= default_entropy_weight
  /\ default_length_weight + default_complexity_weight
     + default_novelty_weight + default_sentiment_weight
     + default_entropy_weight <= 1
  /\ exists importance factors lf cf nf sf ef,
       calculate_enhanced_importance insertion_seed
         (EnhancedThoughtScorer_init insertion_seed) (lit "hello")
         default_length_weight default_complexity_weight
         default_novelty_weight default_sentiment_weight
         default_entropy_weight None
       = Ok (importance, factors)
       /\ dict_get (lit "length_factor") factors = Some lf
       /\ dict_get (lit "complexity_factor") factors = Some cf
       /\ dict_get (lit "novelty_factor") factors = Some nf
       /\ dict_get (lit "sentiment_factor") factors = Some sf
       /\ dict_get (lit "entropy_factor") factors = Some ef
       /\ importance
          = lf * default_length_weight + cf * default_complexity_weight
            + nf * default_novelty_weight + sf * default_sentiment_weight
            + ef * default_entropy_weight.
Proof.
  assert (H1 : 0 <= default_length_weight)
    by (unfold default_length_weight; lra).
  assert (H2 : 0 <= default_complexity_weight)
    by (unfold default_complexity_weight; lra).
  assert (H3 : 0 <= default_novelty_weight)
    by (unfold default_novelty_weight; lra).
  assert (H4 : 0 <= default_sentiment_weight)
    by (unfold default_sentiment_weight; lra).
  assert (H5 : 0 <= default_entropy_weight)
    by (unfold default_entropy_weight; lra).
  assert (H6 : default_length_weight + default_complexity_weight
               + default_novelty_weight + default_sentiment_weight
               + default_entropy_weight <= 1)
    by (unfold default_length_weight, default_complexity_weight,
          default_novelty_weight, default_sentiment_weight,
          default_entropy_weight; lra).
  repeat (split; [assumption |]).
  exact (calculate_enhanced_importance_unclamped insertion_seed
           (EnhancedThoughtScorer_init insertion_seed) (Latin1 "h") (lit "ello")
           default_length_weight default_complexity_weight
           default_novelty_weight default_sentiment_weight
           default_entropy_weight None H1 H2 H3 H4 H5 H6).
Defined.

(** X21.  With the default weights every non-empty content scores above
    0.045, and above 0.345 when no reference text is given (absent or
    empty list); so a non-empty content never scores 0. *)
Theorem calculate_enhanced_importance_floor (h : HashSeed)
  (self : EnhancedThoughtScorer) (c : char) (t : str)
  (existing_content : option (list str)) :
  exists importance factors,
    calculate_enhanced_importance h self (c :: t)
      default_length_weight default_complexity_weight default_novelty_weight
      default_sentiment_weight default_entropy_weight existing_content
    = Ok (importance, factors)
    /\ match reference_list existing_content with
       | [] => 0.345 < importance
       | _ :: _ => 0.045 < importance
       end.
Proof.
  rewrite calculate_enhanced_importance_eq.
  unfold importance_breakdown. cbv zeta.
  eexists. eexists. split; [reflexivity |].
  unfold weighted_importance, default_length_weight, default_complexity_weight,
    default_novelty_weight, default_sentiment_weight, default_entropy_weight.
  pose proof (complexity_spec_range (c :: t)) as H2.
  pose proof (entropy_factor_range (c :: t)) as H5.
  assert (H1 : 0 < Rmin (INR (length (c :: t)) / 500) 1).
  { assert (0 < INR (length (c :: t))) by (apply lt_0_INR; simpl; lia).
    minmax. }
  assert (H4 : 0.3 <= if str_eq_dec (fst (sentiment_spec (c :: t))) (lit "neutral")
                      then 0.3 else snd (sentiment_spec (c :: t))).
  { destruct (str_eq_dec _ _) as [_ | Hne]; [lra |].
    pose proof (sentiment_spec_range (c :: t)).
    unfold sentiment_spec in *. cbv zeta in *.
    destruct (_ =? 0)%nat; [cbn [fst] in Hne; contradiction |].
    destruct (Rgt_dec _ _); [cbn [snd]; lra |].
    destruct (Rlt_dec _ _); [cbn [snd]; lra | cbn [fst] in Hne; contradiction]. }
  set (lf := Rmin (INR (length (c :: t)) / 500) 1) in *.
  set (cf := complexity_spec (c :: t)) in *.
  set (sf := if str_eq_dec (fst (sentiment_spec (c :: t))) (lit "neutral")
             then 0.3 else snd (sentiment_spec (c :: t))) in *.
  set (ef := Rmin (entropy_value (c :: t) / 5) 1) in *.
  destruct (reference_list existing_content) as [| r rs].
  - minmax.
  - pose proof (novelty_spec_range (nlp self) (c :: t) (r :: rs) 3) as H3.
    set (nf := novelty_spec (nlp self) (c :: t) (r :: rs) 3) in *.
    assert (0 <= nf * 0.3) by nra.
    minmax.
Qed.
